(** * ninjabot: the [model] package

    A shallow embedding of [src/model/model.go] (candles, the Heikin Ashi
    recurrence, the OHLC series container, dataframes and accounts) together
    with the properties its specification states about it.

    Conventions of the embedding:
    - a Go [float64] is an IEEE 754 binary64 value, [spec_float] with
      precision 53 and maximal exponent 1024; arithmetic is the correctly
      rounded arithmetic of [SpecFloat];
    - a slice is the list of its elements; distinct fields of one struct are
      taken to have distinct backing arrays;
    - a run-time panic (index or slice bound out of range, failed type
      assertion) is the result [None];
    - a method with a pointer receiver that mutates it is a function from the
      receiver's state before the call to its state after the call;
    - a Go [map] value is a reference into a store of map contents. *)

From Stdlib Require Import ZArith Floats.SpecFloat Strings.String Strings.Ascii.
From stdpp Require Import base option list strings gmap.

Local Open Scope Z_scope.

(** ** float64 *)

Module F64.

Definition prec : Z := 53.
Definition emax : Z := 1024.

Definition float64 : Type := spec_float.

(** Conversion of an integer constant to [float64]. *)
Definition of_Z (z : Z) : float64 := binary_normalize prec emax z 0 false.

(** The zero value of the type, [+0]. *)
Definition zero : float64 := S754_zero false.

Definition add (x y : float64) : float64 := SFadd prec emax x y.
Definition sub (x y : float64) : float64 := SFsub prec emax x y.
Definition div (x y : float64) : float64 := SFdiv prec emax x y.

(** Go's [==], [<] and [>] on floats. *)
Definition eqb (x y : float64) : bool := SFeqb x y.
Definition ltb (x y : float64) : bool := SFltb x y.
Definition gtb (x y : float64) : bool := SFltb y x.

(** [math.IsInf(f, sign)], [math.IsNaN(f)], [math.Signbit(f)] and
    [math.Inf(sign)] of Go's standard library. *)
Definition IsInf (f : float64) (sign : Z) : bool :=
  match f with
  | S754_infinity s => if s then sign <=? 0 else 0 <=? sign
  | _ => false
  end.

Definition IsNaN (f : float64) : bool :=
  match f with S754_nan => true | _ => false end.

Definition Signbit (f : float64) : bool :=
  match f with
  | S754_zero s | S754_infinity s | S754_finite s _ _ => s
  | S754_nan => false
  end.

Definition Inf (sign : Z) : float64 := S754_infinity (sign <? 0).

(** [math.Max] of Go's standard library, special cases first:
    [Max(x, +Inf) = Max(+Inf, x) = +Inf], [Max(x, NaN) = Max(NaN, x) = NaN],
    [Max(+0, ±0) = Max(±0, +0) = +0], [Max(-0, -0) = -0]. *)
Definition Max (x y : float64) : float64 :=
  if IsInf x 1 || IsInf y 1 then Inf 1
  else if IsNaN x || IsNaN y then S754_nan
  else if eqb x zero && eqb x y then (if Signbit x then y else x)
  else if gtb x y then x else y.

(** [math.Min] of Go's standard library, special cases first:
    [Min(x, -Inf) = Min(-Inf, x) = -Inf], [Min(x, NaN) = Min(NaN, x) = NaN],
    [Min(-0, ±0) = Min(±0, -0) = -0]. *)
Definition Min (x y : float64) : float64 :=
  if IsInf x (-1) || IsInf y (-1) then Inf (-1)
  else if IsNaN x || IsNaN y then S754_nan
  else if eqb x zero && eqb x y then (if Signbit x then x else y)
  else if ltb x y then x else y.

End F64.

Import F64.

Declare Scope f64_scope.
Delimit Scope f64_scope with f64.
Infix "+" := F64.add : f64_scope.
Infix "-" := F64.sub : f64_scope.
Infix "/" := F64.div : f64_scope.
Infix "==" := F64.eqb (at level 70, no associativity) : f64_scope.
Abbreviation f64 := F64.of_Z.

(** ** Machine integers and slices *)

(** Go's [int] on the 64-bit targets: arithmetic wraps around. *)
Definition minInt : Z := - 2 ^ 63.
Definition maxInt : Z := 2 ^ 63 - 1.
Definition wrap (z : Z) : Z := (z + 2 ^ 63) mod 2 ^ 64 - 2 ^ 63.

(** Modelled from the spec: the generic slice type [Series[T]], declared in a
    file of the package other than [model.go]; the spec calls its values
    ordered sequences of float64. *)
Abbreviation Series := list.

(** [len(s)]. *)
Definition len {A} (s : list A) : Z := Z.of_nat (length s).

(** [s[i]]: panics unless [0 <= i < len(s)]. *)
Definition index {A} (s : list A) (i : Z) : option A :=
  if (0 <=? i) && (i <? len s) then s !! Z.to_nat i else None.

(** [s[i] = v]: panics unless [0 <= i < len(s)]. *)
Definition store {A} (s : list A) (i : Z) (v : A) : option (list A) :=
  if (0 <=? i) && (i <? len s) then Some (<[Z.to_nat i := v]> s) else None.

(** [s[start:]]: panics unless [0 <= start <= len(s)]. *)
Definition slice_from {A} (s : list A) (start : Z) : option (list A) :=
  if (0 <=? start) && (start <=? len s) then Some (drop (Z.to_nat start) s)
  else None.

(** [for i := range s { body }] over a slice of length [n], starting at index
    [i]; the body transforms the state or panics. *)
Fixpoint for_range_from {St} (i : nat) (n : nat)
    (body : Z -> St -> option St) (st : St) : option St :=
  match n with
  | O => Some st
  | S n' => st' ← body (Z.of_nat i) st; for_range_from (S i) n' body st'
  end.

Definition for_range {St} (n : nat) (body : Z -> St -> option St) (st : St)
  : option St := for_range_from 0 n body st.

(** ** time.Time

    A [time.Time] without monotonic clock reading is represented by its
    instant, the number of nanoseconds elapsed since the zero [Time]
    (January 1, year 1, 00:00 UTC). *)

Module time.

Definition Time : Type := Z.

(** A [time.Duration] is an [int64] count of nanoseconds. *)
Definition minDuration : Z := - 2 ^ 63.
Definition maxDuration : Z := 2 ^ 63 - 1.

(** [t.Sub(u)]: the duration [t - u], or the minimum (maximum) duration if
    the difference is below (above) the range of a [Duration]. *)
Definition Sub (t u : Time) : Z :=
  let d := t - u in
  if d <? minDuration then minDuration
  else if maxDuration <? d then maxDuration
  else d.

Definition zero : Time := 0.

End time.

(** Go [map] values are references into a store; [None] is the [nil] map. *)
Definition map_ref : Type := option positive.

(** ** The structs *)

Module Balance.
Record t : Type := mk {
  Asset : string;
  Free : float64;
  Lock : float64;
  Leverage : float64
}.

Definition zero : t :=
  {| Asset := ""; Free := F64.zero; Lock := F64.zero; Leverage := F64.zero |}.
End Balance.

Module Candle.
Record t : Type := mk {
  Pair : string;
  Time : time.Time;
  UpdatedAt : time.Time;
  Open : float64;
  Close : float64;
  Low : float64;
  High : float64;
  Volume : float64;
  Complete : bool;
  Metadata : map_ref
}.

(** The zero value [Candle{}]. *)
Definition zero : t :=
  {| Pair := ""; Time := time.zero; UpdatedAt := time.zero;
     Open := F64.zero; Close := F64.zero; Low := F64.zero;
     High := F64.zero; Volume := F64.zero; Complete := false;
     Metadata := None |}.
End Candle.

Module OHLC.
Record t : Type := mk {
  Close : Series float64;
  Open : Series float64;
  High : Series float64;
  Low : Series float64;
  Volume : Series float64;
  ChangePercent : Series float64;
  IsBullMarket : list bool;
  Time : list time.Time;
  IsHeikinAshi : bool
}.

Definition with_Close (v : Series float64) (df : t) : t :=
  mk v (Open df) (High df) (Low df) (Volume df) (ChangePercent df)
     (IsBullMarket df) (Time df) (IsHeikinAshi df).
Definition with_Open (v : Series float64) (df : t) : t :=
  mk (Close df) v (High df) (Low df) (Volume df) (ChangePercent df)
     (IsBullMarket df) (Time df) (IsHeikinAshi df).
Definition with_High (v : Series float64) (df : t) : t :=
  mk (Close df) (Open df) v (Low df) (Volume df) (ChangePercent df)
     (IsBullMarket df) (Time df) (IsHeikinAshi df).
Definition with_Low (v : Series float64) (df : t) : t :=
  mk (Close df) (Open df) (High df) v (Volume df) (ChangePercent df)
     (IsBullMarket df) (Time df) (IsHeikinAshi df).
Definition with_Volume (v : Series float64) (df : t) : t :=
  mk (Close df) (Open df) (High df) (Low df) v (ChangePercent df)
     (IsBullMarket df) (Time df) (IsHeikinAshi df).
Definition with_ChangePercent (v : Series float64) (df : t) : t :=
  mk (Close df) (Open df) (High df) (Low df) (Volume df) v
     (IsBullMarket df) (Time df) (IsHeikinAshi df).
Definition with_IsBullMarket (v : list bool) (df : t) : t :=
  mk (Close df) (Open df) (High df) (Low df) (Volume df) (ChangePercent df)
     v (Time df) (IsHeikinAshi df).
Definition with_Time (v : list time.Time) (df : t) : t :=
  mk (Close df) (Open df) (High df) (Low df) (Volume df) (ChangePercent df)
     (IsBullMarket df) v (IsHeikinAshi df).
Definition with_IsHeikinAshi (v : bool) (df : t) : t :=
  mk (Close df) (Open df) (High df) (Low df) (Volume df) (ChangePercent df)
     (IsBullMarket df) (Time df) v.
End OHLC.

Module Dataframe.
Record t : Type := mk {
  Pair : string;
  ohlc : OHLC.t;          (* the embedded OHLC *)
  LastUpdate : time.Time;
  Metadata : map_ref      (* map[string]Series[float64] *)
}.

Definition with_ohlc (v : OHLC.t) (df : t) : t :=
  mk (Pair df) v (LastUpdate df) (Metadata df).
End Dataframe.

Module Account.
Record t : Type := mk { Balances : list Balance.t }.
End Account.

Module HeikinAshi.
Record t : Type := mk { PreviousHACandle : Candle.t }.
End HeikinAshi.

(** Modelled from the spec: the interface [Item] of the package's ordered
    container, declared in a file other than [model.go]; a value of it is a
    [Candle] or a value of some other implementing type. *)
Inductive Item : Type :=
  | ItemCandle (c : Candle.t)
  | ItemOther.

(** The type assertion [j.(Candle)]. *)
Definition asCandle (j : Item) : option Candle.t :=
  match j with ItemCandle c => Some c | ItemOther => None end.

(** The store of the contents of [map[string]Series[float64]] values. *)
Abbreviation map_store := (gmap positive (gmap string (Series float64))).

(** [m[k]] read through a map reference; reading a [nil] map finds nothing. *)
Definition map_get (σ : map_store) (m : map_ref) (k : string)
  : option (Series float64) :=
  r ← m; contents ← σ !! r; contents !! k.

(** [m[k] = v] through a map reference; writing to a [nil] map panics. *)
Definition map_set (σ : map_store) (m : map_ref) (k : string)
    (v : Series float64) : option map_store :=
  r ← m; contents ← σ !! r; Some (<[r := <[k := v]> contents]> σ).

(** ** Dataframe.Sample *)

Definition Sample (df : Dataframe.t) (positions : Z) : option Dataframe.t :=
  let sample := Dataframe.ohlc df in
  let size := len (OHLC.Time sample) in
  let start := wrap (size - positions) in
  if start <=? 0 then Some df
  else
    close ← slice_from (OHLC.Close sample) start;
    let sample := OHLC.with_Close close sample in
    open ← slice_from (OHLC.Open sample) start;
    let sample := OHLC.with_Open open sample in
    low ← slice_from (OHLC.Low sample) start;
    let sample := OHLC.with_Low low sample in
    high ← slice_from (OHLC.High sample) start;
    let sample := OHLC.with_High high sample in
    volume ← slice_from (OHLC.Volume sample) start;
    let sample := OHLC.with_Volume volume sample in
    tm ← slice_from (OHLC.Time sample) start;
    let sample := OHLC.with_Time tm sample in
    Some (Dataframe.with_ohlc sample df).

(** ** OHLC: price averages, candle views *)

Definition HL2 (df : OHLC.t) : option (list float64) :=
  for_range (length (OHLC.Close df))
    (λ i result,
       h ← index (OHLC.High df) i;
       l ← index (OHLC.Low df) i;
       Some (result ++ [((h + l) / f64 2)%f64]))
    [].

Definition HLC3 (df : OHLC.t) : option (list float64) :=
  for_range (length (OHLC.Close df))
    (λ i result,
       h ← index (OHLC.High df) i;
       l ← index (OHLC.Low df) i;
       c ← index (OHLC.Close df) i;
       Some (result ++ [((h + l + c) / f64 3)%f64]))
    [].

Definition OHLC4 (df : OHLC.t) : option (list float64) :=
  for_range (length (OHLC.Close df))
    (λ i result,
       o ← index (OHLC.Open df) i;
       h ← index (OHLC.High df) i;
       l ← index (OHLC.Low df) i;
       c ← index (OHLC.Close df) i;
       Some (result ++ [((o + h + l + c) / f64 4)%f64]))
    [].

(** [df.Candle(i)]. *)
Definition OHLC_Candle (df : OHLC.t) (i : Z) : option Candle.t :=
  tm ← index (OHLC.Time df) i;
  o ← index (OHLC.Open df) i;
  c ← index (OHLC.Close df) i;
  l ← index (OHLC.Low df) i;
  h ← index (OHLC.High df) i;
  v ← index (OHLC.Volume df) i;
  Some {| Candle.Pair := ""; Candle.Time := tm;
          Candle.UpdatedAt := time.zero;
          Candle.Open := o; Candle.Close := c; Candle.Low := l;
          Candle.High := h; Candle.Volume := v; Candle.Complete := false;
          Candle.Metadata := None |}.

(** [df.Last(index...)]; the variadic argument is the list of the offsets
    passed. *)
Definition Last (df : OHLC.t) (index : list Z) : option Candle.t :=
  let length := len (OHLC.Close df) in
  if length =? 0 then Some Candle.zero
  else
    let position := match index with [] => 0 | p :: _ => p end in
    let i := wrap (wrap (length - 1) - position) in
    OHLC_Candle df i.

(** ** Candle.Empty, the Heikin Ashi recurrence *)

Definition Empty (c : Candle.t) : bool :=
  bool_decide (Candle.Pair c = "") && (Candle.Close c == F64.zero)%f64
  && (Candle.Open c == F64.zero)%f64 && (Candle.Volume c == F64.zero)%f64.

Definition NewHeikinAshi : HeikinAshi.t :=
  {| HeikinAshi.PreviousHACandle := Candle.zero |}.

(** [ha.CalculateHeikinAshi(c)]: the returned candle and the state of [ha]
    after the call. *)
Definition CalculateHeikinAshi (ha : HeikinAshi.t) (c : Candle.t)
  : Candle.t * HeikinAshi.t :=
  let hkCandle := Candle.zero in
  let openValue := Candle.Open (HeikinAshi.PreviousHACandle ha) in
  let closeValue := Candle.Close (HeikinAshi.PreviousHACandle ha) in
  let '(openValue, closeValue) :=
    if Empty (HeikinAshi.PreviousHACandle ha)
    then (Candle.Open c, Candle.Close c)
    else (openValue, closeValue) in
  let hkOpen := ((openValue + closeValue) / f64 2)%f64 in
  let hkClose :=
    ((Candle.Open c + Candle.High c + Candle.Low c + Candle.Close c) / f64 4)%f64 in
  let hkHigh := Max (Candle.High c) (Max hkOpen hkClose) in
  let hkLow := Min (Candle.Low c) (Min hkOpen hkClose) in
  let hkCandle :=
    {| Candle.Pair := Candle.Pair hkCandle;
       Candle.Time := Candle.Time hkCandle;
       Candle.UpdatedAt := Candle.UpdatedAt hkCandle;
       Candle.Open := hkOpen; Candle.Close := hkClose;
       Candle.Low := hkLow; Candle.High := hkHigh;
       Candle.Volume := Candle.Volume hkCandle;
       Candle.Complete := Candle.Complete hkCandle;
       Candle.Metadata := Candle.Metadata hkCandle |} in
  (hkCandle, {| HeikinAshi.PreviousHACandle := hkCandle |}).

(** [c.ToHeikinAshi(ha)]: the returned candle and the state of [ha] after the
    call. *)
Definition Candle_ToHeikinAshi (c : Candle.t) (ha : HeikinAshi.t)
  : Candle.t * HeikinAshi.t :=
  let '(haCandle, ha) := CalculateHeikinAshi ha c in
  ({| Candle.Pair := Candle.Pair c;
      Candle.Open := Candle.Open haCandle;
      Candle.High := Candle.High haCandle;
      Candle.Low := Candle.Low haCandle;
      Candle.Close := Candle.Close haCandle;
      Candle.Volume := Candle.Volume c;
      Candle.Complete := Candle.Complete c;
      Candle.Time := Candle.Time c;
      Candle.UpdatedAt := Candle.UpdatedAt c;
      Candle.Metadata := None |}, ha).

(** [c.Less(j)]. *)
Definition Less (c : Candle.t) (j : Item) : option bool :=
  jc ← asCandle j;
  let diff := time.Sub (Candle.Time jc) (Candle.Time c) in
  if diff <? 0 then Some false
  else if 0 <? diff then Some true
  else
    let diff := time.Sub (Candle.UpdatedAt jc) (Candle.UpdatedAt c) in
    if diff <? 0 then Some false
    else if 0 <? diff then Some true
    else Some (String.ltb (Candle.Pair c) (Candle.Pair jc)).

(** ** OHLC.ToHeikinAshi *)

(** One iteration of the loop of [ToHeikinAshi], on the series and the
    recurrence [ha]. *)
Definition ToHeikinAshi_body (i : Z) (st : OHLC.t * HeikinAshi.t)
  : option (OHLC.t * HeikinAshi.t) :=
  let '(df, ha) := st in
  candle ← OHLC_Candle df i;
  let '(candle, ha) := Candle_ToHeikinAshi candle ha in
  close ← store (OHLC.Close df) i (Candle.Close candle);
  let df := OHLC.with_Close close df in
  open ← store (OHLC.Open df) i (Candle.Open candle);
  let df := OHLC.with_Open open df in
  low ← store (OHLC.Low df) i (Candle.Low candle);
  let df := OHLC.with_Low low df in
  high ← store (OHLC.High df) i (Candle.High candle);
  let df := OHLC.with_High high df in
  volume ← store (OHLC.Volume df) i (Candle.Volume candle);
  let df := OHLC.with_Volume volume df in
  c ← index (OHLC.Close df) i;
  o ← index (OHLC.Open df) i;
  change ← store (OHLC.ChangePercent df) i ((c - o) / o)%f64;
  let df := OHLC.with_ChangePercent change df in
  c ← index (OHLC.Close df) i;
  o ← index (OHLC.Open df) i;
  if gtb c o then
    bull ← store (OHLC.IsBullMarket df) i true;
    Some (OHLC.with_IsBullMarket bull df, ha)
  else Some (df, ha).

(** [df.ToHeikinAshi()]: the state of the receiver after the call; the
    pointer returned is the receiver itself. *)
Definition OHLC_ToHeikinAshi (df : OHLC.t) : option OHLC.t :=
  let ha := NewHeikinAshi in
  let df :=
    OHLC.with_ChangePercent (replicate (length (OHLC.Close df)) F64.zero) df in
  let df :=
    OHLC.with_IsBullMarket (replicate (length (OHLC.Close df)) false) df in
  '(df, _) ← for_range (length (OHLC.Time df)) ToHeikinAshi_body (df, ha);
  Some (OHLC.with_IsHeikinAshi true df).

(** The call [p.ToHeikinAshi()] on a pointer [p] into a store of OHLC values:
    the pointer returned and the store after the call. *)
Definition ToHeikinAshi_at (h : gmap positive OHLC.t) (p : positive)
  : option (positive * gmap positive OHLC.t) :=
  df ← h !! p;
  df' ← OHLC_ToHeikinAshi df;
  Some (p, <[p := df']> h).

(** ** Account.Balance *)

(** The state of the loop of [Balance]:
    [(assetBalance, quoteBalance, isSetAsset, isSetQuote)]. *)
Abbreviation Balance_state := (Balance.t * Balance.t * bool * bool)%type.

(** The [switch] on the asset of one entry. *)
Definition Balance_switch (balance : Balance.t) (assetTick quoteTick : string)
    (st : Balance_state) : Balance_state :=
  let '(assetBalance, quoteBalance, isSetAsset, isSetQuote) := st in
  if bool_decide (Balance.Asset balance = assetTick)
  then (balance, quoteBalance, true, isSetQuote)
  else if bool_decide (Balance.Asset balance = quoteTick)
  then (assetBalance, balance, isSetAsset, true)
  else st.

(** The loop of [Balance] over the remaining entries, left when both flags
    are set. *)
Fixpoint Balance_loop (balances : list Balance.t) (assetTick quoteTick : string)
    (st : Balance_state) : Balance_state :=
  match balances with
  | [] => st
  | balance :: rest =>
      let st := Balance_switch balance assetTick quoteTick st in
      let '(_, _, isSetAsset, isSetQuote) := st in
      if isSetAsset && isSetQuote then st
      else Balance_loop rest assetTick quoteTick st
  end.

Definition Account_Balance (a : Account.t) (assetTick quoteTick : string)
  : Balance.t * Balance.t :=
  let '(assetBalance, quoteBalance, _, _) :=
    Balance_loop (Account.Balances a) assetTick quoteTick
      (Balance.zero, Balance.zero, false, false) in
  (assetBalance, quoteBalance).

Definition Equity (a : Account.t) : float64 :=
  foldl (λ total balance,
           ((total + Balance.Free balance) + Balance.Lock balance)%f64)
        F64.zero (Account.Balances a).

(** * Notions of the specification, and sample data *)

(** A raw candle with integral prices, the other fields at their zero value. *)
Definition raw (o c h l : Z) : Candle.t :=
  {| Candle.Pair := ""; Candle.Time := time.zero;
     Candle.UpdatedAt := time.zero;
     Candle.Open := (f64 o); Candle.Close := (f64 c);
     Candle.Low := (f64 l); Candle.High := (f64 h);
     Candle.Volume := F64.zero; Candle.Complete := false;
     Candle.Metadata := None |}.

(** The lexicographic order of strings, bytes compared by their value. *)
Inductive lex_lt : string → string → Prop :=
  | lex_lt_nil a t : lex_lt "" (String a t)
  | lex_lt_head a b s t :
      (N_of_ascii a < N_of_ascii b)%N → lex_lt (String a s) (String b t)
  | lex_lt_tail a s t : lex_lt s t → lex_lt (String a s) (String a t).

(** The order the specification gives to [Less]: by time, then by the time of
    the update, then by the pair. *)
Definition candle_lt (c j : Candle.t) : Prop :=
  Candle.Time c < Candle.Time j
  ∨ (Candle.Time c = Candle.Time j
     ∧ (Candle.UpdatedAt c < Candle.UpdatedAt j
        ∨ (Candle.UpdatedAt c = Candle.UpdatedAt j
           ∧ lex_lt (Candle.Pair c) (Candle.Pair j)))).

(** A small series, used to instantiate the statements below. *)
Definition series2 : OHLC.t :=
  {| OHLC.Close := [f64 20; f64 30]%f64; OHLC.Open := [f64 10; f64 20]%f64;
     OHLC.High := [f64 25; f64 35]%f64; OHLC.Low := [f64 5; f64 15]%f64;
     OHLC.Volume := [f64 1; f64 2]%f64; OHLC.ChangePercent := [];
     OHLC.IsBullMarket := []; OHLC.Time := [1; 2];
     OHLC.IsHeikinAshi := false |}.

(** The sequences of close, open, high, low, volume and time all have [n]
    entries. *)
Definition aligned (df : OHLC.t) (n : nat) : Prop :=
  length (OHLC.Close df) = n ∧ length (OHLC.Open df) = n
  ∧ length (OHLC.High df) = n ∧ length (OHLC.Low df) = n
  ∧ length (OHLC.Volume df) = n ∧ length (OHLC.Time df) = n.

(** [window] is the last [n] entries of [orig]: it has [n] entries, and its
    entry [j] is the entry of [orig] that lies [n - j] places from the end. *)
Definition last_entries {A} (n : nat) (orig window : list A) : Prop :=
  length window = n
  ∧ ∀ j : nat, (j < n)%nat → window !! j = orig !! (length orig - n + j)%nat.

(** What the specification says of [Sample(n)]. *)
Definition Sample_specified (df : Dataframe.t) (n : Z) : Prop :=
  let o := Dataframe.ohlc df in
  if decide (len (OHLC.Time o) ≤ n) then Sample df n = Some df
  else
    ∃ s, Sample df n = Some s
      ∧ last_entries (Z.to_nat n) (OHLC.Close o) (OHLC.Close (Dataframe.ohlc s))
      ∧ last_entries (Z.to_nat n) (OHLC.Open o) (OHLC.Open (Dataframe.ohlc s))
      ∧ last_entries (Z.to_nat n) (OHLC.High o) (OHLC.High (Dataframe.ohlc s))
      ∧ last_entries (Z.to_nat n) (OHLC.Low o) (OHLC.Low (Dataframe.ohlc s))
      ∧ last_entries (Z.to_nat n) (OHLC.Volume o)
          (OHLC.Volume (Dataframe.ohlc s))
      ∧ last_entries (Z.to_nat n) (OHLC.Time o) (OHLC.Time (Dataframe.ohlc s))
      ∧ Dataframe.Metadata s = Dataframe.Metadata df
      ∧ (∀ σ k, map_get σ (Dataframe.Metadata s) k
                = map_get σ (Dataframe.Metadata df) k)
      ∧ (∀ σ σ' k v, map_set σ (Dataframe.Metadata s) k v = Some σ' →
                     map_get σ' (Dataframe.Metadata df) k = Some v).

(** A dataframe of two entries and without metadata. *)
Definition frame2 : Dataframe.t :=
  {| Dataframe.Pair := "BTCUSDT"; Dataframe.ohlc := series2;
     Dataframe.LastUpdate := 2; Dataframe.Metadata := None |}.

(** The first entry of [balances] whose asset is [tick], or the zero value. *)
Definition first_match (tick : string) (balances : list Balance.t)
  : Balance.t :=
  default Balance.zero (head (filter (λ b, Balance.Asset b = tick) balances)).

(** The number of entries of [balances] whose asset is [tick]. *)
Definition matches (tick : string) (balances : list Balance.t) : nat :=
  length (filter (λ b, Balance.Asset b = tick) balances).

(** What the specification says of [Balance(assetTick, quoteTick)]. *)
Definition Balance_specified (a : Account.t) (assetTick quoteTick : string)
  : Prop :=
  Account_Balance a assetTick quoteTick
  = (first_match assetTick (Account.Balances a),
     first_match quoteTick (Account.Balances a)).

Definition btc (free lock : float64) : Balance.t :=
  {| Balance.Asset := "BTC"; Balance.Free := free;
     Balance.Lock := lock; Balance.Leverage := F64.zero |}.

Definition eth (free lock : float64) : Balance.t :=
  {| Balance.Asset := "ETH"; Balance.Free := free;
     Balance.Lock := lock; Balance.Leverage := F64.zero |}.

(** The smoothed candles of the raw candles [cs], one recurrence [ha] threaded
    through them in order. *)
Fixpoint smooth (ha : HeikinAshi.t) (cs : list Candle.t) : list Candle.t :=
  match cs with
  | [] => []
  | c :: cs =>
      let '(c', ha') := Candle_ToHeikinAshi c ha in c' :: smooth ha' cs
  end.

(** [Candle(0)], [Candle(1)], ... of a series, one per time entry. *)
Definition raw_candles (df : OHLC.t) : option (list Candle.t) :=
  mapM (λ i : nat, OHLC_Candle df (Z.of_nat i))
       (seq 0 (length (OHLC.Time df))).

(** What the specification says of [ToHeikinAshi]. *)
Definition ToHeikinAshi_specified (df : OHLC.t) : option OHLC.t :=
  cs ← raw_candles df;
  let hs := smooth NewHeikinAshi cs in
  Some {| OHLC.Close := Candle.Close <$> hs;
          OHLC.Open := Candle.Open <$> hs;
          OHLC.High := Candle.High <$> hs;
          OHLC.Low := Candle.Low <$> hs;
          OHLC.Volume := Candle.Volume <$> hs;
          OHLC.ChangePercent :=
            (λ h, ((Candle.Close h - Candle.Open h) / Candle.Open h)%f64)
              <$> hs;
          OHLC.IsBullMarket :=
            (λ h, gtb (Candle.Close h) (Candle.Open h)) <$> hs;
          OHLC.Time := OHLC.Time df;
          OHLC.IsHeikinAshi := true |}.

(** The candle [Candle(i)] builds from the prices, volume and time of [c]. *)
Definition view (c : Candle.t) : Candle.t :=
  {| Candle.Pair := ""; Candle.Time := Candle.Time c;
     Candle.UpdatedAt := time.zero;
     Candle.Open := Candle.Open c; Candle.Close := Candle.Close c;
     Candle.Low := Candle.Low c; Candle.High := Candle.High c;
     Candle.Volume := Candle.Volume c; Candle.Complete := false;
     Candle.Metadata := None |}.

(** ** Further notions *)

(** [df] without the first [k] entries of its six windowed sequences. *)
Definition windowed (k : nat) (df : Dataframe.t) : Dataframe.t :=
  let o := Dataframe.ohlc df in
  Dataframe.with_ohlc
    (OHLC.mk (drop k (OHLC.Close o)) (drop k (OHLC.Open o))
       (drop k (OHLC.High o)) (drop k (OHLC.Low o)) (drop k (OHLC.Volume o))
       (OHLC.ChangePercent o) (OHLC.IsBullMarket o) (drop k (OHLC.Time o))
       (OHLC.IsHeikinAshi o))
    df.

(** The lengths of the eight sequences of a series. *)
Definition lengths (df : OHLC.t) : list nat :=
  [length (OHLC.Close df); length (OHLC.Open df); length (OHLC.High df);
   length (OHLC.Low df); length (OHLC.Volume df);
   length (OHLC.ChangePercent df); length (OHLC.IsBullMarket df);
   length (OHLC.Time df)].

(** The last entry of [balances] whose asset is [tick], or the zero value. *)
Definition last_match (tick : string) (balances : list Balance.t)
  : Balance.t :=
  default Balance.zero (last (filter (λ b, Balance.Asset b = tick) balances)).

(** The first [n] entries of every sequence of a series. *)
Definition OHLC_take (n : nat) (df : OHLC.t) : OHLC.t :=
  OHLC.mk (take n (OHLC.Close df)) (take n (OHLC.Open df))
    (take n (OHLC.High df)) (take n (OHLC.Low df)) (take n (OHLC.Volume df))
    (take n (OHLC.ChangePercent df)) (take n (OHLC.IsBullMarket df))
    (take n (OHLC.Time df)) (OHLC.IsHeikinAshi df).

(** * Properties *)

(** ** The order of float64 and [math.Max], [math.Min] *)

Lemma SFcompare_total (x y : float64) :
  IsNaN x = false → IsNaN y = false → is_Some (SFcompare x y).
Proof. destruct x, y; cbn; intros; try done; by eexists. Qed.

Lemma SFcompare_antisym (x y : float64) (c : comparison) :
  SFcompare x y = Some c → SFcompare y x = Some (CompOpp c).
Proof.
  destruct x as [sx|sx| |sx mx ex], y as [sy|sy| |sy my ey]; cbn;
    try destruct sx; try destruct sy; intros [= <-]; try reflexivity.
  - rewrite (Z.compare_antisym ex ey).
    destruct (ex ?= ey); cbn; try reflexivity.
    by rewrite !Pos.compare_cont_antisym.
  - rewrite (Z.compare_antisym ex ey).
    destruct (ex ?= ey); cbn; try reflexivity.
    by rewrite Pos.compare_cont_antisym.
Qed.

Lemma SFcompare_refl (x : float64) :
  IsNaN x = false → SFcompare x x = Some Eq.
Proof.
  destruct x as [s|s| |s m e]; cbn; intros; try done.
  - by destruct s.
  - rewrite Z.compare_refl, Pos.compare_cont_refl. by destruct s.
Qed.

(** Without NaN, [math.Max] returns one of its arguments, and none of them
    is above it. *)
Lemma Max_upper (x y : float64) :
  IsNaN x = false → IsNaN y = false →
  SFleb x (Max x y) = true ∧ SFleb y (Max x y) = true
  ∧ (Max x y = x ∨ Max x y = y).
Proof.
  intros Hx Hy. unfold Max. rewrite Hx, Hy. cbn [orb].
  destruct (IsInf x 1 || IsInf y 1) eqn:Einf.
  { destruct x as [|[]| |], y as [|[]| |]; try done; cbn in *; auto. }
  destruct (eqb x F64.zero && eqb x y) eqn:Ez.
  { destruct x as [sx|[]| |[] ? ?]; try done.
    destruct y as [sy|[]| |[] ? ?]; try done.
    destruct sx; cbn; auto. }
  assert (Hxx := SFcompare_refl x Hx). assert (Hyy := SFcompare_refl y Hy).
  destruct (SFcompare_total y x Hy Hx) as [c Hc].
  pose proof (SFcompare_antisym y x c Hc) as Hc'.
  unfold gtb, SFltb, SFleb. rewrite Hc.
  destruct c; rewrite ?Hxx, ?Hyy, ?Hc, ?Hc'; cbn; auto.
Qed.

(** Without NaN, [math.Min] returns one of its arguments, and none of them
    is below it. *)
Lemma Min_lower (x y : float64) :
  IsNaN x = false → IsNaN y = false →
  SFleb (Min x y) x = true ∧ SFleb (Min x y) y = true
  ∧ (Min x y = x ∨ Min x y = y).
Proof.
  intros Hx Hy. unfold Min. rewrite Hx, Hy. cbn [orb].
  destruct (IsInf x (-1) || IsInf y (-1)) eqn:Einf.
  { destruct x as [|[]| |], y as [|[]| |]; try done; cbn in *; auto. }
  destruct (eqb x F64.zero && eqb x y) eqn:Ez.
  { destruct x as [sx|[]| |[] ? ?]; try done.
    destruct y as [sy|[]| |[] ? ?]; try done.
    destruct sx; cbn; auto. }
  assert (Hxx := SFcompare_refl x Hx). assert (Hyy := SFcompare_refl y Hy).
  destruct (SFcompare_total x y Hx Hy) as [c Hc].
  pose proof (SFcompare_antisym x y c Hc) as Hc'.
  unfold ltb, SFltb, SFleb. rewrite Hc.
  destruct c; rewrite ?Hxx, ?Hyy, ?Hc, ?Hc'; cbn; auto.
Qed.

Lemma SFleb_trans (x y z : float64) :
  SFleb x y = true → SFleb y z = true → SFleb x z = true.
Proof.
  unfold SFleb.
  destruct x as [[]|[]| |[] mx ex], y as [[]|[]| |[] my ey],
    z as [[]|[]| |[] mz ez]; cbn; try done;
    change (Pos.compare_cont Eq) with Pos.compare;
    destruct (Z.compare_spec ex ey), (Z.compare_spec ey ez),
      (Z.compare_spec ex ez); cbn; try done; try lia;
    destruct (Pos.compare_spec mx my), (Pos.compare_spec my mz),
      (Pos.compare_spec mx mz); cbn; try done; lia.
Qed.

(** Without NaN, the nested maximum (minimum) of three values is one of them
    and none of them is above (below) it. *)
Lemma Max3_upper (h o c : float64) :
  IsNaN h = false → IsNaN o = false → IsNaN c = false →
  let m := Max h (Max o c) in
  SFleb h m = true ∧ SFleb o m = true ∧ SFleb c m = true
  ∧ (m = h ∨ m = o ∨ m = c).
Proof.
  intros Hh Ho Hc m.
  destruct (Max_upper o c Ho Hc) as (Lo & Lc & Hoc).
  assert (Hn : IsNaN (Max o c) = false) by (by destruct Hoc as [-> | ->]).
  destruct (Max_upper h (Max o c) Hh Hn) as (Lh & Lm & Hm). fold m in Lh, Lm, Hm.
  split_and!; [done | by eapply SFleb_trans | by eapply SFleb_trans |].
  destruct Hm as [-> | ->]; [by left|]. destruct Hoc as [-> | ->]; auto.
Qed.

Lemma Min3_lower (l o c : float64) :
  IsNaN l = false → IsNaN o = false → IsNaN c = false →
  let m := Min l (Min o c) in
  SFleb m l = true ∧ SFleb m o = true ∧ SFleb m c = true
  ∧ (m = l ∨ m = o ∨ m = c).
Proof.
  intros Hl Ho Hc m.
  destruct (Min_lower o c Ho Hc) as (Lo & Lc & Hoc).
  assert (Hn : IsNaN (Min o c) = false) by (by destruct Hoc as [-> | ->]).
  destruct (Min_lower l (Min o c) Hl Hn) as (Ll & Lm & Hm). fold m in Ll, Lm, Hm.
  split_and!; [done | by eapply SFleb_trans | by eapply SFleb_trans |].
  destruct Hm as [-> | ->]; [by left|]. destruct Hoc as [-> | ->]; auto.
Qed.

(** ** The Heikin Ashi recurrence *)

Section Recurrence.

Variable ha : HeikinAshi.t.
Variable c : Candle.t.

Let prev := HeikinAshi.PreviousHACandle ha.
Let hk := (CalculateHeikinAshi ha c).1.
Let ha' := (CalculateHeikinAshi ha c).2.

(** The candle returned is the candle stored. *)
Lemma CalculateHeikinAshi_stores : HeikinAshi.PreviousHACandle ha' = hk.
Proof.
  subst hk ha'. unfold CalculateHeikinAshi.
  by destruct (Empty (HeikinAshi.PreviousHACandle ha)).
Qed.

Lemma CalculateHeikinAshi_close :
  Candle.Close hk
  = ((Candle.Open c + Candle.High c + Candle.Low c + Candle.Close c) / f64 4)%f64.
Proof.
  subst hk. unfold CalculateHeikinAshi.
  by destruct (Empty (HeikinAshi.PreviousHACandle ha)).
Qed.

Lemma CalculateHeikinAshi_high :
  Candle.High hk
  = Max (Candle.High c) (Max (Candle.Open hk) (Candle.Close hk)).
Proof.
  subst hk. unfold CalculateHeikinAshi.
  by destruct (Empty (HeikinAshi.PreviousHACandle ha)).
Qed.

Lemma CalculateHeikinAshi_low :
  Candle.Low hk = Min (Candle.Low c) (Min (Candle.Open hk) (Candle.Close hk)).
Proof.
  subst hk. unfold CalculateHeikinAshi.
  by destruct (Empty (HeikinAshi.PreviousHACandle ha)).
Qed.

(** Only the four prices of the stored candle are ever set. *)
Lemma CalculateHeikinAshi_rest :
  Candle.Pair hk = "" ∧ Candle.Volume hk = F64.zero
  ∧ Candle.Time hk = time.zero ∧ Candle.UpdatedAt hk = time.zero
  ∧ Candle.Complete hk = false ∧ Candle.Metadata hk = None.
Proof.
  subst hk. unfold CalculateHeikinAshi.
  by destruct (Empty (HeikinAshi.PreviousHACandle ha)).
Qed.

(** The opening price when the stored candle is the empty sentinel. *)
Lemma CalculateHeikinAshi_open_seed :
  Empty prev = true →
  Candle.Open hk = ((Candle.Open c + Candle.Close c) / f64 2)%f64.
Proof.
  subst hk prev. unfold CalculateHeikinAshi. by intros ->.
Qed.

(** The opening price when the stored candle is not the empty sentinel. *)
Lemma CalculateHeikinAshi_open_rec :
  Empty prev = false →
  Candle.Open hk = ((Candle.Open prev + Candle.Close prev) / f64 2)%f64.
Proof.
  subst hk prev. unfold CalculateHeikinAshi. by intros ->.
Qed.

End Recurrence.

(** On a candle of which only the prices may be set, [Empty] tests the opening
    and the closing price. *)
Lemma Empty_prices (k : Candle.t) :
  Candle.Pair k = "" → Candle.Volume k = F64.zero →
  Empty k = (Candle.Open k == F64.zero)%f64 && (Candle.Close k == F64.zero)%f64.
Proof.
  intros HP HV. unfold Empty. rewrite HP, HV. cbn.
  destruct (Candle.Close k == F64.zero)%f64,
           (Candle.Open k == F64.zero)%f64; done.
Qed.

(** C1. On the first call of a fresh recurrence, and on any call that finds
    the empty sentinel stored, the smoothed candle of a raw candle [c] has
    open' = (c.open + c.close) / 2, close' = (c.open + c.high + c.low +
    c.close) / 4, high' = max(c.high, open', close') and low' = min(c.low,
    open', close'); for open 10, close 20, high 25 and low 5 this is open' =
    15, close' = 15, high' = 25 and low' = 5. *)
Theorem CalculateHeikinAshi_first_call :
  Empty (HeikinAshi.PreviousHACandle NewHeikinAshi) = true
  ∧ (∀ ha c,
       Empty (HeikinAshi.PreviousHACandle ha) = true →
       let hk := (CalculateHeikinAshi ha c).1 in
       Candle.Open hk = ((Candle.Open c + Candle.Close c) / f64 2)%f64
       ∧ Candle.Close hk
         = ((Candle.Open c + Candle.High c + Candle.Low c + Candle.Close c)
            / f64 4)%f64
       ∧ Candle.High hk
         = Max (Candle.High c) (Max (Candle.Open hk) (Candle.Close hk))
       ∧ Candle.Low hk
         = Min (Candle.Low c) (Min (Candle.Open hk) (Candle.Close hk))
       ∧ (IsNaN (Candle.High c) = false → IsNaN (Candle.Low c) = false →
          IsNaN (Candle.Open hk) = false → IsNaN (Candle.Close hk) = false →
          SFleb (Candle.High c) (Candle.High hk) = true
          ∧ SFleb (Candle.Open hk) (Candle.High hk) = true
          ∧ SFleb (Candle.Close hk) (Candle.High hk) = true
          ∧ SFleb (Candle.Low hk) (Candle.Low c) = true
          ∧ SFleb (Candle.Low hk) (Candle.Open hk) = true
          ∧ SFleb (Candle.Low hk) (Candle.Close hk) = true))
  ∧ (∀ c,
       Candle.Open c = (f64 10) → Candle.Close c = (f64 20) →
       Candle.High c = (f64 25) → Candle.Low c = (f64 5) →
       let hk := (CalculateHeikinAshi NewHeikinAshi c).1 in
       Candle.Open hk = (f64 15) ∧ Candle.Close hk = (f64 15)
       ∧ Candle.High hk = (f64 25) ∧ Candle.Low hk = (f64 5)).
Proof.
  split; [reflexivity|]. split.
  - intros ha c Hempty hk. subst hk.
    split; [by apply CalculateHeikinAshi_open_seed|].
    split; [apply CalculateHeikinAshi_close|].
    split; [apply CalculateHeikinAshi_high|].
    split; [apply CalculateHeikinAshi_low|].
    intros Hh Hl Ho Hc.
    rewrite CalculateHeikinAshi_high, CalculateHeikinAshi_low.
    destruct (Max3_upper _ _ _ Hh Ho Hc) as (? & ? & ? & _).
    destruct (Min3_lower _ _ _ Hl Ho Hc) as (? & ? & ? & _).
    done.
  - intros c Ho Hc Hh Hl hk. subst hk.
    rewrite CalculateHeikinAshi_high, CalculateHeikinAshi_low,
      CalculateHeikinAshi_close, CalculateHeikinAshi_open_seed by reflexivity.
    rewrite Ho, Hc, Hh, Hl. by vm_compute.
Qed.

Lemma CalculateHeikinAshi_first_call_witness :
  let hk := (CalculateHeikinAshi NewHeikinAshi (raw 10 20 25 5)).1 in
  (Candle.Open hk = (f64 15) ∧ Candle.Close hk = (f64 15)
   ∧ Candle.High hk = (f64 25) ∧ Candle.Low hk = (f64 5))
  ∧ Candle.Open hk = ((f64 10 + f64 20) / f64 2)%f64
  ∧ SFleb (Candle.Open hk) (Candle.High hk) = true.
Proof.
  split; [|split].
  - apply (proj2 (proj2 CalculateHeikinAshi_first_call) (raw 10 20 25 5));
      reflexivity.
  - apply (proj1 (proj2 CalculateHeikinAshi_first_call) NewHeikinAshi
             (raw 10 20 25 5)).
    reflexivity.
  - apply (proj1 (proj2 CalculateHeikinAshi_first_call) NewHeikinAshi
             (raw 10 20 25 5)); reflexivity.
Defined.

(** C2, at the candles (0, 0, 0, 0) and (open 10, close 20, high 25, low 5)
    fed in this order to a fresh recurrence: the first smoothed candle is
    stored, its opening and closing prices are 0, and the opening price of the
    second smoothed candle is 15, the average of the second raw candle's own
    open and close, and not 0, the average of the first smoothed open and
    close. *)
Theorem CalculateHeikinAshi_reseeds_after_zero_candle :
  let '(h1, ha1) := CalculateHeikinAshi NewHeikinAshi (raw 0 0 0 0) in
  let '(h2, ha2) := CalculateHeikinAshi ha1 (raw 10 20 25 5) in
  HeikinAshi.PreviousHACandle ha1 = h1
  ∧ HeikinAshi.PreviousHACandle ha2 = h2
  ∧ Candle.Open h1 = (f64 0) ∧ Candle.Close h1 = (f64 0)
  ∧ ((Candle.Open h1 + Candle.Close h1) / f64 2)%f64 = (f64 0)
  ∧ Candle.Open h2 = (f64 15)
  ∧ Candle.Open h2 ≠ ((Candle.Open h1 + Candle.Close h1) / f64 2)%f64.
Proof. vm_compute. repeat split; discriminate. Qed.

(** C9. After every call of CalculateHeikinAshi the stored candle is the
    candle returned, its pair is empty and its volume is 0, so that Empty on
    it is the test that its open and its close are 0; and whenever the open
    and the close of a smoothed candle are 0, the next call computes its
    opening price from the open and close of its own raw candle. *)
Theorem stored_candle_sentinel (ha : HeikinAshi.t) (c : Candle.t) :
  let hk := (CalculateHeikinAshi ha c).1 in
  let ha' := (CalculateHeikinAshi ha c).2 in
  let stored := HeikinAshi.PreviousHACandle ha' in
  stored = hk
  ∧ Candle.Pair stored = ""
  ∧ Candle.Volume stored = F64.zero
  ∧ (Candle.Volume stored == f64 0)%f64 = true
  ∧ Empty stored
    = (Candle.Open stored == f64 0)%f64 && (Candle.Close stored == f64 0)%f64
  ∧ ((Candle.Open hk == f64 0)%f64 = true →
     (Candle.Close hk == f64 0)%f64 = true →
     ∀ c2, Candle.Open (CalculateHeikinAshi ha' c2).1
           = ((Candle.Open c2 + Candle.Close c2) / f64 2)%f64).
Proof.
  intros hk ha' stored.
  assert (Hst : stored = hk) by apply CalculateHeikinAshi_stores.
  destruct (CalculateHeikinAshi_rest ha c) as (HP & HV & _).
  fold hk in HP, HV. rewrite <- Hst in HP, HV.
  assert (HE : Empty stored
    = (Candle.Open stored == f64 0)%f64 && (Candle.Close stored == f64 0)%f64)
    by (by apply Empty_prices).
  repeat split; try done.
  - by rewrite HV.
  - intros Ho Hc c2. apply CalculateHeikinAshi_open_seed.
    fold stored. rewrite HE, Hst, Ho, Hc. done.
Qed.

Lemma stored_candle_sentinel_witness :
  Candle.Open (CalculateHeikinAshi
                 (CalculateHeikinAshi NewHeikinAshi (raw 0 0 0 0)).2
                 (raw 10 20 25 5)).1
  = ((f64 10 + f64 20) / f64 2)%f64.
Proof.
  apply (proj2 (proj2 (proj2 (proj2 (proj2
           (stored_candle_sentinel NewHeikinAshi (raw 0 0 0 0)))))));
    reflexivity.
Defined.

(** ** The order of candles *)

(** The sign of a saturated difference is the sign of the difference. *)
Lemma Sub_sign (t u : time.Time) :
  (time.Sub t u <? 0) = (t <? u) ∧ (0 <? time.Sub t u) = (u <? t).
Proof.
  unfold time.Sub, time.minDuration, time.maxDuration.
  change (2 ^ 63) with 9223372036854775808.
  repeat case_match; split; lia.
Qed.

Lemma ltb_lex_lt (s t : string) : String.ltb s t = true ↔ lex_lt s t.
Proof.
  unfold String.ltb. revert t.
  induction s as [|a s IH]; intros [|b t]; simpl.
  - split; [done | inversion 1].
  - split; [constructor | done].
  - split; [done | inversion 1].
  - destruct (Ascii.compare a b) eqn:E.
    + apply Ascii.compare_eq_iff in E as ->. rewrite IH. split.
      * by constructor.
      * inversion 1; subst; [lia | done].
    + split; [|done]. intros _. constructor 2.
      by apply N.compare_lt_iff.
    + split; [done|]. unfold Ascii.compare in E.
      apply N.compare_gt_iff in E. inversion 1; subst; lia.
Qed.

(** C8. For candles c and j, c.Less(j) returns, and it is true exactly when
    c's time is before j's or, the times being equal, c's updatedAt is before
    j's or, these being equal too, c's pair is lexicographically below j's;
    in particular when the times differ it is true iff c.time < j.time, and for
    A (t=1, upd=1, pair "a") and B (t=1, upd=1, pair "b") A.Less(B) is true
    and B.Less(A) is false. *)
Theorem Less_order :
  (∀ c j, ∃ b, Less c (ItemCandle j) = Some b ∧ (b = true ↔ candle_lt c j))
  ∧ (∀ c j, Candle.Time c ≠ Candle.Time j →
       Less c (ItemCandle j) = Some (Candle.Time c <? Candle.Time j))
  ∧ (∀ A B,
       Candle.Time A = 1 → Candle.UpdatedAt A = 1 → Candle.Pair A = "a" →
       Candle.Time B = 1 → Candle.UpdatedAt B = 1 → Candle.Pair B = "b" →
       Less A (ItemCandle B) = Some true ∧ Less B (ItemCandle A) = Some false).
Proof.
  split; [|split].
  - intros c j. unfold Less, candle_lt. cbn.
    destruct (Sub_sign (Candle.Time j) (Candle.Time c)) as [-> ->].
    destruct (Sub_sign (Candle.UpdatedAt j) (Candle.UpdatedAt c)) as [-> ->].
    repeat case_match; eexists; (split; [reflexivity|]);
      rewrite ?ltb_lex_lt; try (split; [done | lia]); try (split; [lia | done]).
    split.
    + intros Hlt. right. split; [lia|]. right. split; [lia | done].
    + intros [?|[_ [?|[_ ?]]]]; [lia | lia | done].
  - intros c j Hne. unfold Less. cbn.
    destruct (Sub_sign (Candle.Time j) (Candle.Time c)) as [-> ->].
    repeat case_match; f_equal; lia.
  - intros A B HtA HuA HpA HtB HuB HpB. unfold Less. cbn.
    rewrite HtA, HuA, HpA, HtB, HuB, HpB. done.
Qed.

Lemma Less_order_witness :
  let A := Candle.mk "a" 1 1 F64.zero F64.zero F64.zero F64.zero F64.zero
             false None in
  let B := Candle.mk "b" 1 1 F64.zero F64.zero F64.zero F64.zero F64.zero
             false None in
  Less A (ItemCandle B) = Some true ∧ Less B (ItemCandle A) = Some false.
Proof.
  intros A B. apply (proj2 (proj2 Less_order) A B); reflexivity.
Defined.

(** ** Indices, slices and loops *)

Lemma wrap_id (z : Z) : minInt ≤ z ≤ maxInt → wrap z = z.
Proof.
  unfold wrap, minInt, maxInt.
  change (2 ^ 63) with 9223372036854775808.
  change (2 ^ 64) with 18446744073709551616.
  intros H. rewrite Z.mod_small; lia.
Qed.

Lemma index_of_nat {A} (s : list A) (i : nat) : index s (Z.of_nat i) = s !! i.
Proof.
  unfold index, len. rewrite Nat2Z.id.
  destruct (s !! i) eqn:E.
  - apply lookup_lt_Some in E.
    replace (Z.of_nat i <? Z.of_nat (length s)) with true by lia.
    by replace (0 <=? Z.of_nat i) with true by lia.
  - by case_match.
Qed.

Lemma index_is_Some {A} (s : list A) (i : Z) :
  0 ≤ i < len s → is_Some (index s i).
Proof.
  intros H. rewrite <- (Z2Nat.id i) by lia. rewrite index_of_nat.
  apply lookup_lt_is_Some. unfold len in H. lia.
Qed.

(** A loop whose body appends one value per index collects the values. *)
Lemma for_range_collect {A} (body : Z → list A → option (list A))
    (g : nat → A) (n i : nat) (acc : list A) :
  (∀ j r, (i ≤ j < i + n)%nat → body (Z.of_nat j) r = Some (r ++ [g j])) →
  for_range_from i n body acc = Some (acc ++ (g <$> seq i n)).
Proof.
  revert i acc. induction n as [|n IH]; intros i acc Hbody; simpl.
  - by rewrite app_nil_r.
  - rewrite Hbody by lia. simpl. rewrite IH.
    + by rewrite <- app_assoc.
    + intros j r Hj. apply Hbody. lia.
Qed.

Lemma OHLC_Candle_is_Some (df : OHLC.t) (n : nat) (i : Z) :
  aligned df n → 0 ≤ i < Z.of_nat n → is_Some (OHLC_Candle df i).
Proof.
  intros (Hc & Ho & Hh & Hl & Hv & Ht) Hi. unfold OHLC_Candle.
  destruct (index_is_Some (OHLC.Time df) i) as [? ->];
    [unfold len; lia|].
  destruct (index_is_Some (OHLC.Open df) i) as [? ->];
    [unfold len; lia|].
  destruct (index_is_Some (OHLC.Close df) i) as [? ->];
    [unfold len; lia|].
  destruct (index_is_Some (OHLC.Low df) i) as [? ->];
    [unfold len; lia|].
  destruct (index_is_Some (OHLC.High df) i) as [? ->];
    [unfold len; lia|].
  destruct (index_is_Some (OHLC.Volume df) i) as [? ->];
    [unfold len; lia|].
  by eexists.
Qed.

(** ** Last *)

(** C7. On a series with len > 0 close entries, Last(k) is Candle(len-1-k)
    for every 0 <= k < len and Last() is Candle(len-1), a candle when the
    sequences are aligned; on an empty series Last() is the zero-value
    Candle, for which Empty() is true. *)
Theorem Last_is_Candle (df : OHLC.t) :
  let n := len (OHLC.Close df) in
  (n ≠ 0 → n ≤ maxInt →
   ∀ k, 0 ≤ k < n → Last df [k] = OHLC_Candle df (n - 1 - k))
  ∧ (n ≠ 0 → n ≤ maxInt → Last df [] = OHLC_Candle df (n - 1))
  ∧ (aligned df (Z.to_nat n) →
     ∀ k, 0 ≤ k < n → is_Some (OHLC_Candle df (n - 1 - k)))
  ∧ (n = 0 → Last df [] = Some Candle.zero ∧ Empty Candle.zero = true).
Proof.
  intros n. assert (Hn : 0 ≤ n) by (unfold n, len; lia).
  assert (Hmin : minInt = - 9223372036854775808) by reflexivity.
  assert (Hmax : maxInt = 9223372036854775807) by reflexivity.
  split; [|split; [|split]].
  - intros Hne Hle k Hk. unfold Last. fold n.
    destruct (n =? 0) eqn:E; [lia|].
    rewrite (wrap_id (n - 1)) by lia. by rewrite wrap_id by lia.
  - intros Hne Hle. unfold Last. fold n.
    destruct (n =? 0) eqn:E; [lia|].
    rewrite (wrap_id (n - 1)) by lia. rewrite wrap_id by lia.
    f_equal. lia.
  - intros Hal k Hk. apply (OHLC_Candle_is_Some df (Z.to_nat n)); [done | lia].
  - intros H0. unfold Last. fold n. by rewrite H0.
Qed.

Lemma Last_is_Candle_witness :
  Last series2 [1] = OHLC_Candle series2 0
  ∧ Last series2 [] = OHLC_Candle series2 1
  ∧ is_Some (OHLC_Candle series2 0)
  ∧ Last (OHLC.mk [] [] [] [] [] [] [] [] false) [] = Some Candle.zero.
Proof.
  split; [|split; [|split]].
  - apply (proj1 (Last_is_Candle series2)); [done | done | done].
  - apply (proj1 (proj2 (Last_is_Candle series2))); done.
  - apply (proj1 (proj2 (proj2 (Last_is_Candle series2))) ltac:(done) 1). done.
  - apply (proj2 (proj2 (proj2
             (Last_is_Candle (OHLC.mk [] [] [] [] [] [] [] [] false))))).
    reflexivity.
Defined.

(** ** HL2, HLC3, OHLC4 *)

(** C6. When the close, open, high and low sequences of a series all have
    length L, HL2(), HLC3() and OHLC4() each return a sequence of length L
    whose value at every index i is (high[i]+low[i])/2,
    (high[i]+low[i]+close[i])/3 and (open[i]+high[i]+low[i]+close[i])/4. *)
Theorem price_averages (df : OHLC.t) (L : nat) :
  length (OHLC.Close df) = L → length (OHLC.Open df) = L →
  length (OHLC.High df) = L → length (OHLC.Low df) = L →
  ∃ r2 r3 r4,
    HL2 df = Some r2 ∧ HLC3 df = Some r3 ∧ OHLC4 df = Some r4
    ∧ length r2 = L ∧ length r3 = L ∧ length r4 = L
    ∧ ∀ (i : nat) o h l c,
        OHLC.Open df !! i = Some o → OHLC.High df !! i = Some h →
        OHLC.Low df !! i = Some l → OHLC.Close df !! i = Some c →
        r2 !! i = Some ((h + l) / f64 2)%f64
        ∧ r3 !! i = Some ((h + l + c) / f64 3)%f64
        ∧ r4 !! i = Some ((o + h + l + c) / f64 4)%f64.
Proof.
  intros Hc Ho Hh Hl.
  set (at_ (s : Series float64) (j : nat) := default F64.zero (s !! j)).
  assert (Hat : ∀ (s : Series float64) (j : nat),
             (j < length s)%nat → index s (Z.of_nat j) = Some (at_ s j)).
  { intros s j Hj. rewrite index_of_nat. unfold at_.
    by destruct (lookup_lt_is_Some_2 s j Hj) as [? ->]. }
  set (g2 j := ((at_ (OHLC.High df) j + at_ (OHLC.Low df) j) / f64 2)%f64).
  set (g3 j := ((at_ (OHLC.High df) j + at_ (OHLC.Low df) j
                 + at_ (OHLC.Close df) j) / f64 3)%f64).
  set (g4 j := ((at_ (OHLC.Open df) j + at_ (OHLC.High df) j
                 + at_ (OHLC.Low df) j + at_ (OHLC.Close df) j) / f64 4)%f64).
  exists (g2 <$> seq 0 L), (g3 <$> seq 0 L), (g4 <$> seq 0 L).
  split; [|split; [|split; [|split; [|split; [|split]]]]].
  - unfold HL2, for_range. rewrite Hc.
    rewrite (for_range_collect _ g2); [done|].
    intros j r Hj. by rewrite !Hat by lia.
  - unfold HLC3, for_range. rewrite Hc.
    rewrite (for_range_collect _ g3); [done|].
    intros j r Hj. by rewrite !Hat by lia.
  - unfold OHLC4, for_range. rewrite Hc.
    rewrite (for_range_collect _ g4); [done|].
    intros j r Hj. by rewrite !Hat by lia.
  - by rewrite length_fmap, length_seq.
  - by rewrite length_fmap, length_seq.
  - by rewrite length_fmap, length_seq.
  - intros i o h l c Hio Hih Hil Hic.
    assert (Hi : (i < L)%nat) by (apply lookup_lt_Some in Hic; lia).
    rewrite !list_lookup_fmap, !lookup_seq_lt by done. cbn.
    unfold g2, g3, g4, at_. by rewrite Hio, Hih, Hil, Hic.
Qed.

Lemma price_averages_witness :
  ∃ r2 r3 r4,
    HL2 series2 = Some r2 ∧ HLC3 series2 = Some r3 ∧ OHLC4 series2 = Some r4
    ∧ length r2 = 2%nat ∧ length r3 = 2%nat ∧ length r4 = 2%nat
    ∧ ∀ (i : nat) o h l c,
        OHLC.Open series2 !! i = Some o → OHLC.High series2 !! i = Some h →
        OHLC.Low series2 !! i = Some l → OHLC.Close series2 !! i = Some c →
        r2 !! i = Some ((h + l) / f64 2)%f64
        ∧ r3 !! i = Some ((h + l + c) / f64 3)%f64
        ∧ r4 !! i = Some ((o + h + l + c) / f64 4)%f64.
Proof. apply (price_averages series2 2); reflexivity. Defined.

(** ** Sample *)

Lemma map_get_set (σ σ' : map_store) (m : map_ref) (k : string)
    (v : Series float64) :
  map_set σ m k v = Some σ' → map_get σ' m k = Some v.
Proof.
  unfold map_set, map_get. destruct m as [r|]; [|done]. cbn.
  destruct (σ !! r) as [contents|] eqn:E; [|done]. cbn.
  intros [= <-]. rewrite lookup_insert_eq. cbn. by rewrite lookup_insert_eq.
Qed.

Lemma slice_from_drop {A} (s : list A) (k : nat) :
  (k ≤ length s)%nat → slice_from s (Z.of_nat k) = Some (drop k s).
Proof.
  intros H. unfold slice_from, len. rewrite Nat2Z.id.
  replace (0 <=? Z.of_nat k) with true by lia.
  by replace (Z.of_nat k <=? Z.of_nat (length s)) with true by lia.
Qed.

Lemma slice_from_beyond {A} (s : list A) (start : Z) :
  len s < start → slice_from s start = None.
Proof.
  intros H. unfold slice_from.
  replace (start <=? len s) with false by lia. by rewrite andb_false_r.
Qed.

Lemma drop_last_entries {A} (s : list A) (n : nat) :
  (n ≤ length s)%nat → last_entries n s (drop (length s - n) s).
Proof.
  intros H. split.
  - rewrite length_drop. lia.
  - intros j Hj. by rewrite lookup_drop.
Qed.

(** Sample panics on a negative number of positions. *)
Lemma Sample_negative (df : Dataframe.t) (L : nat) (n : Z) :
  aligned (Dataframe.ohlc df) L → Z.of_nat L - n ≤ maxInt → n < 0 →
  Sample df n = None.
Proof.
  intros (Hc & _ & _ & _ & _ & Ht) Hle Hn.
  assert (Hmin : minInt = - 9223372036854775808) by reflexivity.
  assert (Hmax : maxInt = 9223372036854775807) by reflexivity.
  unfold Sample, len. rewrite Ht, wrap_id by lia.
  destruct (Z.of_nat L - n <=? 0) eqn:E; [lia|].
  rewrite slice_from_beyond; [done|]. unfold len. lia.
Qed.

(** C5, as stated, fails for a negative n: on a dataframe of two entries
    Sample(-1) panics, where the series length 2 is not <= -1 and a copy
    should be returned. *)
Lemma Sample_specified_fails : ¬ Sample_specified frame2 (-1).
Proof.
  unfold Sample_specified. cbn. intros (s & Hs & _). vm_compute in Hs. done.
Qed.

(** C5, amended. For every Dataframe df whose close, open, high, low, volume
    and time sequences have the same length (at most the largest int) and
    every n with 0 <= n: if the series length is <= n, Sample(n) returns df
    unchanged; otherwise it returns a copy in which these six sequences each
    are the last n entries of the original, index-aligned, and whose metadata
    map is the original map, shared by reference. *)
Theorem Sample_window (df : Dataframe.t) (L : nat) (n : Z) :
  aligned (Dataframe.ohlc df) L → Z.of_nat L ≤ maxInt → 0 ≤ n ≤ maxInt →
  Sample_specified df n.
Proof.
  intros (Hc & Ho & Hh & Hl & Hv & Ht) HL Hn.
  assert (Hmin : minInt = - 9223372036854775808) by reflexivity.
  assert (Hmax : maxInt = 9223372036854775807) by reflexivity.
  unfold Sample_specified, Sample, len. cbn. rewrite Ht, wrap_id by lia.
  destruct (decide (Z.of_nat L ≤ n)) as [Hle|Hgt].
  - by replace (Z.of_nat L - n <=? 0) with true by lia.
  - replace (Z.of_nat L - n <=? 0) with false by lia.
    replace (Z.of_nat L - n) with (Z.of_nat (L - Z.to_nat n)) by lia.
    rewrite !slice_from_drop by (cbn; lia). cbn.
    eexists. split; [reflexivity|]. cbn.
    rewrite <- Hc at 1. rewrite <- Ho at 1. rewrite <- Hh at 1.
    rewrite <- Hl at 1. rewrite <- Hv at 1. rewrite <- Ht at 1.
    split_and!; try (apply drop_last_entries; lia); try done.
    intros σ σ' k v. apply map_get_set.
Qed.

Lemma Sample_window_witness :
  Sample_specified frame2 1 ∧ Sample_specified frame2 2.
Proof.
  split; apply (Sample_window frame2 2); vm_compute; intuition discriminate.
Defined.

(** ** Account.Balance *)

(** C4, as stated, fails when a symbol has several entries, and when the two
    symbols are the same: with two BTC entries Balance("BTC","USDT") returns
    the second one, and with one BTC entry Balance("BTC","BTC") returns the
    zero value in the quote slot. *)
Lemma Balance_specified_fails :
  ¬ Balance_specified (Account.mk [btc (f64 1) (f64 0); btc (f64 2) (f64 0)]) "BTC" "USDT"
  ∧ Account_Balance (Account.mk [btc (f64 1) (f64 0); btc (f64 2) (f64 0)]) "BTC" "USDT"
    = (btc (f64 2) (f64 0), Balance.zero)
  ∧ ¬ Balance_specified (Account.mk [btc (f64 1) (f64 0)]) "BTC" "BTC"
  ∧ Account_Balance (Account.mk [btc (f64 1) (f64 0)]) "BTC" "BTC"
    = (btc (f64 1) (f64 0), Balance.zero).
Proof.
  unfold Balance_specified. split_and!; try reflexivity.
  - vm_compute. discriminate.
  - vm_compute. discriminate.
Qed.

Lemma matches_cons (b : Balance.t) (bs : list Balance.t) (tick : string) :
  matches tick (b :: bs)
  = ((if bool_decide (Balance.Asset b = tick) then 1 else 0)
     + matches tick bs)%nat.
Proof.
  unfold matches. case_bool_decide.
  - by rewrite filter_cons_True.
  - by rewrite filter_cons_False.
Qed.

Section BalanceLoop.

Variables assetTick quoteTick : string.
Hypothesis distinct : assetTick ≠ quoteTick.

(** With at most one entry per symbol, each slot that is not yet set receives
    the first entry of its symbol among the remaining ones. *)
Lemma Balance_loop_first (bs : list Balance.t) :
  ∀ ab qb (sa sq : bool),
    (matches assetTick bs ≤ 1)%nat → (matches quoteTick bs ≤ 1)%nat →
    (sa = true → matches assetTick bs = 0%nat) →
    (sq = true → matches quoteTick bs = 0%nat) →
    sa && sq = false →
    let '(ab', qb', _, _) :=
      Balance_loop bs assetTick quoteTick (ab, qb, sa, sq) in
    ab' = (if sa then ab
           else default ab
                  (head (filter (λ b, Balance.Asset b = assetTick) bs)))
    ∧ qb' = (if sq then qb
             else default qb
                    (head (filter (λ b, Balance.Asset b = quoteTick) bs))).
Proof.
  induction bs as [|b bs IH]; intros ab qb sa sq Ha Hq Hsa Hsq Hboth.
  - cbn. by destruct sa, sq.
  - rewrite matches_cons in Ha, Hq, Hsa, Hsq. cbn [Balance_loop].
    unfold Balance_switch.
    destruct (bool_decide (Balance.Asset b = assetTick)) eqn:Ea.
    + apply bool_decide_eq_true in Ea.
      assert (Hnq : Balance.Asset b ≠ quoteTick) by congruence.
      rewrite bool_decide_eq_false_2 in Hq, Hsq by done.
      assert (sa = false) as ->
        by (destruct sa; [specialize (Hsa eq_refl); lia | done]).
      rewrite filter_cons_True by done.
      rewrite filter_cons_False by done. cbn.
      destruct sq.
      * done.
      * specialize (IH b qb true false). cbn in IH.
        destruct (Balance_loop bs assetTick quoteTick (b, qb, true, false))
          as [[[ab' qb'] ?] ?].
        apply IH; [lia | lia | intros _; lia | done | done].
    + apply bool_decide_eq_false in Ea.
      rewrite filter_cons_False by done.
      destruct (bool_decide (Balance.Asset b = quoteTick)) eqn:Eq.
      * apply bool_decide_eq_true in Eq.
        assert (sq = false) as ->
          by (destruct sq; [specialize (Hsq eq_refl); lia | done]).
        rewrite filter_cons_True by done. cbn.
        destruct sa.
        -- done.
        -- specialize (IH ab b false true). cbn in IH.
           destruct (Balance_loop bs assetTick quoteTick (ab, b, false, true))
             as [[[ab' qb'] ?] ?].
           apply IH; [lia | lia | done | intros _; lia | done].
      * apply bool_decide_eq_false in Eq.
        rewrite filter_cons_False by done. rewrite Hboth.
        specialize (IH ab qb sa sq).
        destruct (Balance_loop bs assetTick quoteTick (ab, qb, sa, sq))
          as [[[ab' qb'] ?] ?].
        apply IH; [lia | lia | intros Hx; specialize (Hsa Hx); lia
                  | intros Hx; specialize (Hsq Hx); lia | done].
Qed.

End BalanceLoop.

(** A property of the loop state that every [switch] preserves holds when the
    loop is left. *)
Lemma Balance_loop_invariant (P : Balance_state → Prop) (x y : string)
    (bs : list Balance.t) :
  (∀ b st, b ∈ bs → P st → P (Balance_switch b x y st)) →
  ∀ st, P st → P (Balance_loop bs x y st).
Proof.
  induction bs as [|b bs IH]; intros Hstep st HP; cbn [Balance_loop]; [done|].
  assert (HP' : P (Balance_switch b x y st)) by (apply Hstep; [left | done]).
  destruct (Balance_switch b x y st) as [[[ab qb] sa] sq].
  destruct (sa && sq); [done|].
  apply IH; [|done]. intros b' st' Hb'. apply Hstep. by right.
Qed.

Lemma matches_none (tick : string) (bs : list Balance.t) (b : Balance.t) :
  matches tick bs = 0%nat → b ∈ bs → Balance.Asset b ≠ tick.
Proof.
  intros H%nil_length_inv Hb Heq.
  by eapply (filter_nil_not_elem_of (λ b, Balance.Asset b = tick)).
Qed.

(** C4, amended. For every Account and symbols assetTick and quoteTick,
    Balance returns in each slot the zero-value Balance or an entry whose
    asset is the slot's symbol, and the zero value, with no error, in the slot
    of a symbol that no entry has; when the two symbols differ and each is the
    asset of at most one entry, the slots hold the first entry whose asset is
    assetTick and the first whose asset is quoteTick; e.g. on the balances BTC
    (free 1, lock 0.5) and ETH (free 2, lock 0) Balance("BTC","USDT") returns
    the BTC balance and a zero-valued Balance. *)
Theorem Account_Balance_lookup :
  (∀ a x y,
     let bs := Account.Balances a in
     let r := Account_Balance a x y in
     (r.1 = Balance.zero ∨ (r.1 ∈ bs ∧ Balance.Asset r.1 = x))
     ∧ (r.2 = Balance.zero ∨ (r.2 ∈ bs ∧ Balance.Asset r.2 = y))
     ∧ (matches x bs = 0%nat → r.1 = Balance.zero)
     ∧ (matches y bs = 0%nat → r.2 = Balance.zero))
  ∧ (∀ a x y,
       x ≠ y →
       (matches x (Account.Balances a) ≤ 1)%nat →
       (matches y (Account.Balances a) ≤ 1)%nat →
       Balance_specified a x y)
  ∧ Account_Balance
      (Account.mk [btc (f64 1) (f64 1 / f64 2)%f64; eth (f64 2) (f64 0)])
      "BTC" "USDT"
    = (btc (f64 1) (f64 1 / f64 2)%f64, Balance.zero).
Proof.
  split_and!; [| |reflexivity].
  - intros [bs] x y. cbn. unfold Account_Balance. cbn.
    set (P := λ st : Balance_state,
           (st.1.1.1 = Balance.zero
            ∨ (st.1.1.1 ∈ bs ∧ Balance.Asset st.1.1.1 = x))
           ∧ (st.1.1.2 = Balance.zero
              ∨ (st.1.1.2 ∈ bs ∧ Balance.Asset st.1.1.2 = y))).
    assert (H1 : P (Balance_loop bs x y
                      (Balance.zero, Balance.zero, false, false))).
    { apply Balance_loop_invariant; [|by split; left].
      intros b [[[ab qb] sa] sq] Hb [Ha Hq]. unfold Balance_switch, P.
      repeat case_bool_decide; cbn in *; split; auto. }
    assert (H2 : matches x bs = 0%nat →
                 (Balance_loop bs x y
                    (Balance.zero, Balance.zero, false, false)).1.1.1
                 = Balance.zero).
    { intros Hx. apply (Balance_loop_invariant
                          (λ st, st.1.1.1 = Balance.zero)); [|done].
      intros b [[[ab qb] sa] sq] Hb Hst. unfold Balance_switch.
      pose proof (matches_none x bs b Hx Hb).
      repeat case_bool_decide; cbn in *; done. }
    assert (H3 : matches y bs = 0%nat →
                 (Balance_loop bs x y
                    (Balance.zero, Balance.zero, false, false)).1.1.2
                 = Balance.zero).
    { intros Hy. apply (Balance_loop_invariant
                          (λ st, st.1.1.2 = Balance.zero)); [|done].
      intros b [[[ab qb] sa] sq] Hb Hst. unfold Balance_switch.
      pose proof (matches_none y bs b Hy Hb).
      repeat case_bool_decide; cbn in *; done. }
    destruct (Balance_loop bs x y (Balance.zero, Balance.zero, false, false))
      as [[[ab qb] sa] sq].
    destruct H1 as [H1a H1q]. cbn in *. done.
  - intros [bs] x y Hxy Hx Hy. unfold Balance_specified, Account_Balance.
    cbn in *.
    pose proof (Balance_loop_first x y Hxy bs Balance.zero Balance.zero
                  false false Hx Hy) as H.
    destruct (Balance_loop bs x y (Balance.zero, Balance.zero, false, false))
      as [[[ab qb] sa] sq].
    destruct H as [-> ->]; done.
Qed.

Lemma Account_Balance_lookup_witness :
  Balance_specified
    (Account.mk [btc (f64 1) (f64 1 / f64 2)%f64; eth (f64 2) (f64 0)])
    "BTC" "USDT"
  ∧ (Account_Balance
       (Account.mk [btc (f64 1) (f64 1 / f64 2)%f64; eth (f64 2) (f64 0)])
       "BTC" "USDT").2 = Balance.zero.
Proof.
  split.
  - apply (proj1 (proj2 Account_Balance_lookup)); [done | |]; vm_compute; lia.
  - apply (proj1 Account_Balance_lookup
             (Account.mk [btc (f64 1) (f64 1 / f64 2)%f64; eth (f64 2) (f64 0)])
             "BTC" "USDT").
    reflexivity.
Defined.

(** ** ToHeikinAshi *)

Lemma index_middle {A} (pre suf : list A) (x : A) (i : nat) :
  length pre = i → index (pre ++ x :: suf) (Z.of_nat i) = Some x.
Proof. intros <-. rewrite index_of_nat. by apply list_lookup_middle. Qed.

Lemma store_of_nat {A} (s : list A) (i : nat) (v : A) :
  (i < length s)%nat → store s (Z.of_nat i) v = Some (<[i := v]> s).
Proof.
  intros H. unfold store, len. rewrite Nat2Z.id.
  replace (0 <=? Z.of_nat i) with true by lia.
  by replace (Z.of_nat i <? Z.of_nat (length s)) with true by lia.
Qed.

Lemma store_middle {A} (pre suf : list A) (x v : A) (i : nat) :
  length pre = i →
  store (pre ++ x :: suf) (Z.of_nat i) v = Some ((pre ++ [v]) ++ suf).
Proof.
  intros <-. rewrite store_of_nat by (rewrite length_app; cbn; lia).
  rewrite insert_app_r_alt by lia. rewrite Nat.sub_diag. cbn.
  by rewrite <- app_assoc.
Qed.

Lemma snoc_app {A} (pre suf : list A) (x : A) :
  pre ++ x :: suf = (pre ++ [x]) ++ suf.
Proof. by rewrite <- app_assoc. Qed.

Lemma snoc_length {A} (pre : list A) (x : A) (i : nat) :
  length pre = i → length (pre ++ [x]) = S i.
Proof. intros <-. rewrite length_app. cbn. lia. Qed.

(** One iteration at index [i], on a series whose entries at [i] are [c], [o],
    [h], [l], [v] and [tm] and whose bull-market flag at [i] is still unset. *)
Lemma ToHeikinAshi_body_step (i : nat) (ha : HeikinAshi.t)
    (pc po ph pl pv pcp : list float64) (pbm : list bool)
    (pt : list time.Time) (ish : bool) (c o h l v cp0 : float64)
    (tm : time.Time) (sc so sh sl sv scp : list float64) (sbm : list bool)
    (st : list time.Time) :
  length pc = i → length po = i → length ph = i → length pl = i →
  length pv = i → length pcp = i → length pbm = i → length pt = i →
  let raw := {| Candle.Pair := ""; Candle.Time := tm;
                Candle.UpdatedAt := time.zero;
                Candle.Open := o; Candle.Close := c; Candle.Low := l;
                Candle.High := h; Candle.Volume := v;
                Candle.Complete := false; Candle.Metadata := None |} in
  let k := (Candle_ToHeikinAshi raw ha).1 in
  ToHeikinAshi_body (Z.of_nat i)
    (OHLC.mk (pc ++ c :: sc) (po ++ o :: so) (ph ++ h :: sh) (pl ++ l :: sl)
       (pv ++ v :: sv) (pcp ++ cp0 :: scp) (pbm ++ false :: sbm)
       (pt ++ tm :: st) ish, ha)
  = Some
      (OHLC.mk ((pc ++ [Candle.Close k]) ++ sc) ((po ++ [Candle.Open k]) ++ so)
         ((ph ++ [Candle.High k]) ++ sh) ((pl ++ [Candle.Low k]) ++ sl)
         ((pv ++ [v]) ++ sv)
         ((pcp ++ [((Candle.Close k - Candle.Open k) / Candle.Open k)%f64])
          ++ scp)
         ((pbm ++ [gtb (Candle.Close k) (Candle.Open k)]) ++ sbm)
         ((pt ++ [tm]) ++ st) ish,
       (Candle_ToHeikinAshi raw ha).2).
Proof.
  intros Hc Ho Hh Hl Hv Hcp Hbm Ht raw k.
  unfold ToHeikinAshi_body, OHLC_Candle.
  cbn [OHLC.Close OHLC.Open OHLC.High OHLC.Low OHLC.Volume OHLC.Time].
  rewrite !(index_middle _ _ _ i) by done.
  cbn [mbind option_bind]. fold raw.
  assert (HV : Candle.Volume k = v).
  { subst k. unfold Candle_ToHeikinAshi.
    by destruct (CalculateHeikinAshi ha raw). }
  subst k. destruct (Candle_ToHeikinAshi raw ha) as [k ha1].
  cbn [fst snd] in *.
  cbn [OHLC.Close OHLC.Open OHLC.High OHLC.Low OHLC.Volume OHLC.Time
       OHLC.ChangePercent OHLC.IsBullMarket OHLC.IsHeikinAshi
       OHLC.with_Close OHLC.with_Open OHLC.with_High OHLC.with_Low
       OHLC.with_Volume OHLC.with_ChangePercent OHLC.with_IsBullMarket].
  rewrite !(store_middle _ _ _ _ i) by done.
  cbn [mbind option_bind].
  cbn [OHLC.Close OHLC.Open OHLC.High OHLC.Low OHLC.Volume OHLC.Time
       OHLC.ChangePercent OHLC.IsBullMarket OHLC.IsHeikinAshi
       OHLC.with_Close OHLC.with_Open OHLC.with_High OHLC.with_Low
       OHLC.with_Volume OHLC.with_ChangePercent OHLC.with_IsBullMarket].
  rewrite <- !snoc_app.
  rewrite !(index_middle _ _ _ i) by done.
  cbn [mbind option_bind].
  rewrite !(store_middle _ _ _ _ i) by done.
  cbn [mbind option_bind].
  cbn [OHLC.Close OHLC.Open OHLC.High OHLC.Low OHLC.Volume OHLC.Time
       OHLC.ChangePercent OHLC.IsBullMarket OHLC.IsHeikinAshi
       OHLC.with_Close OHLC.with_Open OHLC.with_High OHLC.with_Low
       OHLC.with_Volume OHLC.with_ChangePercent OHLC.with_IsBullMarket].
  rewrite HV.
  destruct (gtb (Candle.Close k) (Candle.Open k)) eqn:Eg; cbn;
    by rewrite <- ?snoc_app.
Qed.

(** The loop of [ToHeikinAshi] from index [i] on: the entries below [i] are
    kept, those from [i] on are replaced by the smoothed candles. *)
Lemma ToHeikinAshi_loop (cs : list Candle.t) :
  ∀ (i : nat) ha pc po ph pl pv pcp pbm pt ish,
    length pc = i → length po = i → length ph = i → length pl = i →
    length pv = i → length pcp = i → length pbm = i → length pt = i →
    let hs := smooth ha (view <$> cs) in
    ∃ ha',
      for_range_from i (length cs) ToHeikinAshi_body
        (OHLC.mk (pc ++ (Candle.Close <$> cs)) (po ++ (Candle.Open <$> cs))
           (ph ++ (Candle.High <$> cs)) (pl ++ (Candle.Low <$> cs))
           (pv ++ (Candle.Volume <$> cs))
           (pcp ++ replicate (length cs) F64.zero)
           (pbm ++ replicate (length cs) false)
           (pt ++ (Candle.Time <$> cs)) ish, ha)
      = Some
          (OHLC.mk (pc ++ (Candle.Close <$> hs)) (po ++ (Candle.Open <$> hs))
             (ph ++ (Candle.High <$> hs)) (pl ++ (Candle.Low <$> hs))
             (pv ++ (Candle.Volume <$> cs))
             (pcp ++ ((λ h, ((Candle.Close h - Candle.Open h)
                             / Candle.Open h)%f64) <$> hs))
             (pbm ++ ((λ h, gtb (Candle.Close h) (Candle.Open h)) <$> hs))
             (pt ++ (Candle.Time <$> cs)) ish, ha').
Proof.
  induction cs as [|c cs IH];
    intros i ha pc po ph pl pv pcp pbm pt ish Hc Ho Hh Hl Hv Hcp Hbm Ht.
  - cbn. by eexists.
  - cbn [length for_range_from fmap list_fmap replicate smooth].
    rewrite ToHeikinAshi_body_step by done.
    fold (view c). cbn [mbind option_bind].
    destruct (Candle_ToHeikinAshi (view c) ha) as [k ha1]. cbn [fst snd].
    edestruct (IH (S i) ha1) as [ha' ->]; try (by apply snoc_length).
    eexists. cbn [fmap list_fmap]. by rewrite <- !snoc_app.
Qed.

Lemma OHLC_Candle_inv (df : OHLC.t) (i : nat) (c : Candle.t) :
  OHLC_Candle df (Z.of_nat i) = Some c →
  OHLC.Close df !! i = Some (Candle.Close c)
  ∧ OHLC.Open df !! i = Some (Candle.Open c)
  ∧ OHLC.High df !! i = Some (Candle.High c)
  ∧ OHLC.Low df !! i = Some (Candle.Low c)
  ∧ OHLC.Volume df !! i = Some (Candle.Volume c)
  ∧ OHLC.Time df !! i = Some (Candle.Time c)
  ∧ view c = c.
Proof.
  unfold OHLC_Candle. rewrite !index_of_nat.
  destruct (OHLC.Time df !! i); [|done].
  destruct (OHLC.Open df !! i); [|done].
  destruct (OHLC.Close df !! i); [|done].
  destruct (OHLC.Low df !! i); [|done].
  destruct (OHLC.High df !! i); [|done].
  destruct (OHLC.Volume df !! i); [|done].
  cbn. by intros [= <-].
Qed.

Lemma raw_candles_is_Some (df : OHLC.t) (L : nat) :
  aligned df L → is_Some (raw_candles df).
Proof.
  intros Hal. apply mapM_is_Some_2, Forall_forall. intros i Hi.
  apply elem_of_seq in Hi. cbn.
  apply (OHLC_Candle_is_Some df L); [done|].
  destruct Hal as (_ & _ & _ & _ & _ & Ht). lia.
Qed.

(** The columns of an aligned series are the fields of its candles. *)
Lemma raw_candles_columns (df : OHLC.t) (L : nat) (cs : list Candle.t) :
  aligned df L → raw_candles df = Some cs →
  length cs = L
  ∧ OHLC.Close df = Candle.Close <$> cs
  ∧ OHLC.Open df = Candle.Open <$> cs
  ∧ OHLC.High df = Candle.High <$> cs
  ∧ OHLC.Low df = Candle.Low <$> cs
  ∧ OHLC.Volume df = Candle.Volume <$> cs
  ∧ OHLC.Time df = Candle.Time <$> cs
  ∧ view <$> cs = cs.
Proof.
  intros (Hc & Ho & Hh & Hl & Hv & Ht) Hcs. apply mapM_Some_1 in Hcs.
  assert (Hlen : length cs = L).
  { apply Forall2_length in Hcs. rewrite length_seq in Hcs. lia. }
  assert (Hat : ∀ i c, cs !! i = Some c →
                       OHLC_Candle df (Z.of_nat i) = Some c).
  { intros i c Hi.
    destruct (Forall2_lookup_r _ _ _ _ _ Hcs Hi) as (j & Hj & Hcj).
    apply lookup_seq in Hj as [-> _]. done. }
  assert (Hcol : ∀ {A} (col : list A) (f : Candle.t → A),
             length col = L →
             (∀ i c, OHLC_Candle df (Z.of_nat i) = Some c →
                     col !! i = Some (f c)) →
             col = f <$> cs).
  { intros A col f Hcl Hf. apply list_eq. intros i.
    rewrite list_lookup_fmap. destruct (cs !! i) as [c|] eqn:Ei; cbn.
    - by apply Hf, Hat.
    - apply lookup_ge_None_2. apply lookup_ge_None_1 in Ei. lia. }
  split; [done|].
  split_and!; try (apply Hcol; [done|]; intros i c Hi;
                   by destruct (OHLC_Candle_inv df i c Hi)
                     as (? & ? & ? & ? & ? & ? & ?)).
  apply list_eq. intros i. rewrite list_lookup_fmap.
  destruct (cs !! i) as [c|] eqn:Ei; cbn; [|done].
  f_equal. by destruct (OHLC_Candle_inv df i c (Hat i c Ei))
             as (? & ? & ? & ? & ? & ? & ?).
Qed.

(** Smoothing keeps the volume and the time of every candle. *)
Lemma smooth_frame (cs : list Candle.t) :
  ∀ ha, Candle.Volume <$> smooth ha cs = Candle.Volume <$> cs
        ∧ Candle.Time <$> smooth ha cs = Candle.Time <$> cs
        ∧ length (smooth ha cs) = length cs.
Proof.
  induction cs as [|c cs IH]; intros ha; [done|]. cbn.
  unfold Candle_ToHeikinAshi. destruct (CalculateHeikinAshi ha c) as [k ha1].
  cbn. destruct (IH ha1) as (-> & -> & ->). done.
Qed.

(** On an aligned series the code does what the specification says, and it
    returns. *)
Lemma ToHeikinAshi_aligned (df : OHLC.t) (L : nat) :
  aligned df L →
  OHLC_ToHeikinAshi df = ToHeikinAshi_specified df
  ∧ is_Some (OHLC_ToHeikinAshi df).
Proof.
  intros Hal.
  destruct (raw_candles_is_Some df L Hal) as [cs Hcs].
  destruct (raw_candles_columns df L cs Hal Hcs)
    as (Hlen & Hc & Ho & Hh & Hl & Hv & Ht & Hview).
  assert (Hspec : ToHeikinAshi_specified df
                  = Some (OHLC.mk
                      (Candle.Close <$> smooth NewHeikinAshi cs)
                      (Candle.Open <$> smooth NewHeikinAshi cs)
                      (Candle.High <$> smooth NewHeikinAshi cs)
                      (Candle.Low <$> smooth NewHeikinAshi cs)
                      (Candle.Volume <$> smooth NewHeikinAshi cs)
                      ((λ h, ((Candle.Close h - Candle.Open h)
                              / Candle.Open h)%f64)
                         <$> smooth NewHeikinAshi cs)
                      ((λ h, gtb (Candle.Close h) (Candle.Open h))
                         <$> smooth NewHeikinAshi cs)
                      (OHLC.Time df) true)).
  { unfold ToHeikinAshi_specified. by rewrite Hcs. }
  rewrite Hspec. clear Hspec.
  assert (Hcode : OHLC_ToHeikinAshi df = Some (OHLC.mk
                      (Candle.Close <$> smooth NewHeikinAshi cs)
                      (Candle.Open <$> smooth NewHeikinAshi cs)
                      (Candle.High <$> smooth NewHeikinAshi cs)
                      (Candle.Low <$> smooth NewHeikinAshi cs)
                      (Candle.Volume <$> smooth NewHeikinAshi cs)
                      ((λ h, ((Candle.Close h - Candle.Open h)
                              / Candle.Open h)%f64)
                         <$> smooth NewHeikinAshi cs)
                      ((λ h, gtb (Candle.Close h) (Candle.Open h))
                         <$> smooth NewHeikinAshi cs)
                      (OHLC.Time df) true)).
  { unfold OHLC_ToHeikinAshi, for_range.
    destruct df as [cl op hi lo vo cp bm tm ish]. cbn in *. subst.
    rewrite !length_fmap.
    unfold OHLC.with_IsBullMarket, OHLC.with_ChangePercent.
    cbn [OHLC.Close OHLC.Open OHLC.High OHLC.Low OHLC.Volume OHLC.Time
         OHLC.ChangePercent OHLC.IsBullMarket OHLC.IsHeikinAshi].
    destruct (ToHeikinAshi_loop cs 0 NewHeikinAshi [] [] [] [] [] [] [] []
                ish) as [ha' Hloop]; try done.
    cbn [app] in Hloop. rewrite Hloop. cbn. rewrite Hview.
    by destruct (smooth_frame cs NewHeikinAshi) as (-> & _ & _). }
  by rewrite Hcode.
Qed.

(** C3. On a series whose close, open, high, low, volume and time sequences
    are aligned, ToHeikinAshi returns, and the receiver then is what the
    specification says: with one fresh recurrence threaded through Candle(0),
    Candle(1), ... in ascending order, open, close, low, high and volume at i
    are those of the i-th smoothed candle, changePercent[i] is (close[i] -
    open[i]) / open[i] of the smoothed values, the bull-market flag at i is
    true iff the smoothed close[i] > open[i], and isHeikinAshi is true; the
    pointer returned is the receiver. *)
Theorem ToHeikinAshi_transform (df : OHLC.t) (L : nat) :
  aligned df L →
  ∃ cs df',
    raw_candles df = Some cs
    ∧ OHLC_ToHeikinAshi df = Some df'
    ∧ ToHeikinAshi_specified df = Some df'
    ∧ OHLC.IsHeikinAshi df' = true
    ∧ (∀ (i : nat) k,
         smooth NewHeikinAshi cs !! i = Some k →
         OHLC.Open df' !! i = Some (Candle.Open k)
         ∧ OHLC.Close df' !! i = Some (Candle.Close k)
         ∧ OHLC.Low df' !! i = Some (Candle.Low k)
         ∧ OHLC.High df' !! i = Some (Candle.High k)
         ∧ OHLC.Volume df' !! i = Some (Candle.Volume k)
         ∧ OHLC.ChangePercent df' !! i
           = Some ((Candle.Close k - Candle.Open k) / Candle.Open k)%f64
         ∧ OHLC.IsBullMarket df' !! i
           = Some (gtb (Candle.Close k) (Candle.Open k)))
    ∧ (∀ (h : gmap positive OHLC.t) p,
         h !! p = Some df → ToHeikinAshi_at h p = Some (p, <[p := df']> h)).
Proof.
  intros Hal.
  destruct (ToHeikinAshi_aligned df L Hal) as [Heq [df' Hdf']].
  destruct (raw_candles_is_Some df L Hal) as [cs Hcs].
  exists cs, df'. split; [done|]. split; [done|].
  rewrite <- Heq. split; [done|].
  rewrite Heq in Hdf'. unfold ToHeikinAshi_specified in Hdf'.
  rewrite Hcs in Hdf'. cbn in Hdf'. injection Hdf' as <-. cbn.
  split; [done|]. split.
  - intros i k Hk. rewrite !list_lookup_fmap, Hk. done.
  - intros h p Hp. unfold ToHeikinAshi_at. rewrite Hp.
    cbn [mbind option_bind]. rewrite Heq. unfold ToHeikinAshi_specified.
    rewrite Hcs. done.
Qed.

Lemma ToHeikinAshi_transform_witness :
  ∃ cs df',
    raw_candles series2 = Some cs
    ∧ OHLC_ToHeikinAshi series2 = Some df'
    ∧ ToHeikinAshi_specified series2 = Some df'
    ∧ OHLC.IsHeikinAshi df' = true
    ∧ (∀ (i : nat) k,
         smooth NewHeikinAshi cs !! i = Some k →
         OHLC.Open df' !! i = Some (Candle.Open k)
         ∧ OHLC.Close df' !! i = Some (Candle.Close k)
         ∧ OHLC.Low df' !! i = Some (Candle.Low k)
         ∧ OHLC.High df' !! i = Some (Candle.High k)
         ∧ OHLC.Volume df' !! i = Some (Candle.Volume k)
         ∧ OHLC.ChangePercent df' !! i
           = Some ((Candle.Close k - Candle.Open k) / Candle.Open k)%f64
         ∧ OHLC.IsBullMarket df' !! i
           = Some (gtb (Candle.Close k) (Candle.Open k)))
    ∧ (∀ (h : gmap positive OHLC.t) p,
         h !! p = Some series2 →
         ToHeikinAshi_at h p = Some (p, <[p := df']> h)).
Proof. apply (ToHeikinAshi_transform series2 2). vm_compute. done. Defined.

(** ** The frame of ToHeikinAshi *)

Lemma for_range_from_invariant {St} (Q : St → Prop)
    (body : Z → St → option St) :
  (∀ i st st', Q st → body i st = Some st' → Q st') →
  ∀ n i st st', Q st → for_range_from i n body st = Some st' → Q st'.
Proof.
  intros Hbody. induction n as [|n IH]; intros i st st' HQ; cbn.
  - by intros [= <-].
  - destruct (body (Z.of_nat i) st) as [st1|] eqn:E; [|done]. cbn.
    apply IH. by eapply Hbody.
Qed.

(** Writing to an index the value read from it changes nothing. *)
Lemma store_same {A} (s s' : list A) (i : Z) (v : A) :
  index s i = Some v → store s i v = Some s' → s' = s.
Proof.
  unfold index, store. destruct ((0 <=? i) && (i <? len s)); [|done].
  intros Hv [= <-]. by apply list_insert_id.
Qed.

Lemma ToHeikinAshi_body_frame (i : Z) (df df' : OHLC.t)
    (ha ha' : HeikinAshi.t) :
  ToHeikinAshi_body i (df, ha) = Some (df', ha') →
  OHLC.Volume df' = OHLC.Volume df ∧ OHLC.Time df' = OHLC.Time df.
Proof.
  unfold ToHeikinAshi_body, OHLC_Candle.
  destruct (index (OHLC.Time df) i) as [tm|]; [|done].
  destruct (index (OHLC.Open df) i) as [o|]; [|done].
  destruct (index (OHLC.Close df) i) as [c|]; [|done].
  destruct (index (OHLC.Low df) i) as [l|]; [|done].
  destruct (index (OHLC.High df) i) as [h|]; [|done].
  destruct (index (OHLC.Volume df) i) as [v|] eqn:Ev; [|done].
  cbn [mbind option_bind].
  unfold Candle_ToHeikinAshi.
  destruct (CalculateHeikinAshi ha _) as [k ha1].
  cbn [Candle.Close Candle.Open Candle.Low Candle.High Candle.Volume].
  repeat match goal with
    | |- context [store ?s i ?x ≫= _] =>
        let E := fresh "Es" in
        destruct (store s i x) eqn:E; [|done];
        cbn [mbind option_bind OHLC.Close OHLC.Open OHLC.High OHLC.Low
             OHLC.Volume OHLC.Time OHLC.ChangePercent OHLC.IsBullMarket
             OHLC.with_Close OHLC.with_Open OHLC.with_High OHLC.with_Low
             OHLC.with_Volume OHLC.with_ChangePercent] in *
    | |- context [index ?s i ≫= _] =>
        destruct (index s i); [|done]; cbn [mbind option_bind]
    end.
  match goal with
  | H : store (OHLC.Volume df) i v = Some _ |- _ =>
      apply (store_same _ _ _ _ Ev) in H as ->
  end.
  destruct (gtb _ _).
  - destruct (store (OHLC.IsBullMarket df) i true); [|done].
    cbn. by intros [= <- <-].
  - by intros [= <- <-].
Qed.

(** C10. Whenever ToHeikinAshi returns, the volume and the time at every
    index are what they were before the call, although the volume is written
    back: smoothing one candle copies its volume and time through; and on an
    aligned series ToHeikinAshi does return. *)
Theorem ToHeikinAshi_keeps_volume_and_time :
  (∀ c ha,
     Candle.Volume (Candle_ToHeikinAshi c ha).1 = Candle.Volume c
     ∧ Candle.Time (Candle_ToHeikinAshi c ha).1 = Candle.Time c)
  ∧ (∀ df df',
       OHLC_ToHeikinAshi df = Some df' →
       OHLC.Volume df' = OHLC.Volume df ∧ OHLC.Time df' = OHLC.Time df
       ∧ ∀ i, index (OHLC.Volume df') i = index (OHLC.Volume df) i
              ∧ index (OHLC.Time df') i = index (OHLC.Time df) i)
  ∧ (∀ df L, aligned df L → is_Some (OHLC_ToHeikinAshi df)).
Proof.
  split_and!.
  - intros c ha. unfold Candle_ToHeikinAshi.
    by destruct (CalculateHeikinAshi ha c).
  - intros df df' H. unfold OHLC_ToHeikinAshi, for_range in H.
    match type of H with
    | for_range_from 0 ?n ToHeikinAshi_body ?st ≫= _ = _ =>
        destruct (for_range_from 0 n ToHeikinAshi_body st)
          as [[df1 ha1]|] eqn:E; [|done]
    end.
    cbn in H. injection H as <-.
    apply (for_range_from_invariant
             (λ st, OHLC.Volume st.1 = OHLC.Volume df
                    ∧ OHLC.Time st.1 = OHLC.Time df)) in E.
    + cbn in E. destruct E as [EV ET]. cbn. rewrite EV, ET. done.
    + intros i [d h] [d' h'] [HV HT] Hb. cbn in *.
      apply ToHeikinAshi_body_frame in Hb as [-> ->]. done.
    + done.
  - intros df L Hal. by destruct (ToHeikinAshi_aligned df L Hal).
Qed.

Lemma ToHeikinAshi_keeps_volume_and_time_witness :
  ∃ df', OHLC_ToHeikinAshi series2 = Some df'
         ∧ OHLC.Volume df' = [f64 1; f64 2]
         ∧ OHLC.Time df' = [1; 2].
Proof.
  destruct (proj2 (proj2 ToHeikinAshi_keeps_volume_and_time) series2 2%nat)
    as [df' Hdf'].
  { vm_compute. done. }
  exists df'. split; [done|].
  destruct (proj1 (proj2 ToHeikinAshi_keeps_volume_and_time) series2 df' Hdf')
    as (HV & HT & _).
  rewrite HV, HT. split; reflexivity.
Defined.

(** * Further properties of the package *)

(** ** Candle views: bounds and contents *)

Lemma index_bounds {A} (s : list A) (i : Z) :
  is_Some (index s i) ↔ 0 ≤ i < len s.
Proof.
  split; [|apply index_is_Some].
  unfold index. destruct ((0 <=? i) && (i <? len s)) eqn:E.
  - intros _. lia.
  - by intros [? ?].
Qed.

Lemma index_lookup {A} (s : list A) (i : Z) (x : A) :
  index s i = Some x → 0 ≤ i ∧ s !! Z.to_nat i = Some x.
Proof.
  unfold index. destruct ((0 <=? i) && (i <? len s)) eqn:E; [|done].
  intros H. split; [lia | done].
Qed.

Lemma OHLC_Candle_is_Some_iff (df : OHLC.t) (i : Z) :
  is_Some (OHLC_Candle df i)
  ↔ 0 ≤ i ∧ i < len (OHLC.Time df) ∧ i < len (OHLC.Open df)
    ∧ i < len (OHLC.Close df) ∧ i < len (OHLC.Low df)
    ∧ i < len (OHLC.High df) ∧ i < len (OHLC.Volume df).
Proof.
  unfold OHLC_Candle. split.
  - intros H.
    destruct (index (OHLC.Time df) i) eqn:Et; [|by destruct H].
    destruct (index (OHLC.Open df) i) eqn:Eo; [|by destruct H].
    destruct (index (OHLC.Close df) i) eqn:Ec; [|by destruct H].
    destruct (index (OHLC.Low df) i) eqn:El; [|by destruct H].
    destruct (index (OHLC.High df) i) eqn:Eh; [|by destruct H].
    destruct (index (OHLC.Volume df) i) eqn:Ev; [|by destruct H].
    pose proof (proj1 (index_bounds _ i) (mk_is_Some _ _ Et)).
    pose proof (proj1 (index_bounds _ i) (mk_is_Some _ _ Eo)).
    pose proof (proj1 (index_bounds _ i) (mk_is_Some _ _ Ec)).
    pose proof (proj1 (index_bounds _ i) (mk_is_Some _ _ El)).
    pose proof (proj1 (index_bounds _ i) (mk_is_Some _ _ Eh)).
    pose proof (proj1 (index_bounds _ i) (mk_is_Some _ _ Ev)).
    lia.
  - intros (H0 & Ht & Ho & Hc & Hl & Hh & Hv).
    destruct (index_is_Some (OHLC.Time df) i) as [? ->]; [lia|].
    destruct (index_is_Some (OHLC.Open df) i) as [? ->]; [lia|].
    destruct (index_is_Some (OHLC.Close df) i) as [? ->]; [lia|].
    destruct (index_is_Some (OHLC.Low df) i) as [? ->]; [lia|].
    destruct (index_is_Some (OHLC.High df) i) as [? ->]; [lia|].
    destruct (index_is_Some (OHLC.Volume df) i) as [? ->]; [lia|].
    by eexists.
Qed.

Lemma OHLC_Candle_fields (df : OHLC.t) (i : Z) (c : Candle.t) :
  OHLC_Candle df i = Some c →
  index (OHLC.Time df) i = Some (Candle.Time c)
  ∧ index (OHLC.Open df) i = Some (Candle.Open c)
  ∧ index (OHLC.Close df) i = Some (Candle.Close c)
  ∧ index (OHLC.Low df) i = Some (Candle.Low c)
  ∧ index (OHLC.High df) i = Some (Candle.High c)
  ∧ index (OHLC.Volume df) i = Some (Candle.Volume c)
  ∧ Candle.Pair c = "" ∧ Candle.UpdatedAt c = time.zero
  ∧ Candle.Complete c = false ∧ Candle.Metadata c = None.
Proof.
  unfold OHLC_Candle.
  destruct (index (OHLC.Time df) i); [|done].
  destruct (index (OHLC.Open df) i); [|done].
  destruct (index (OHLC.Close df) i); [|done].
  destruct (index (OHLC.Low df) i); [|done].
  destruct (index (OHLC.High df) i); [|done].
  destruct (index (OHLC.Volume df) i); [|done].
  cbn. by intros [= <-].
Qed.

(** X1. Candle(i) returns exactly when i is an index of all six sequences it
    reads; the candle then carries the entries at i, and its pair, updatedAt,
    complete and metadata are the zero values. *)
Theorem OHLC_Candle_bounds (df : OHLC.t) (i : Z) :
  (is_Some (OHLC_Candle df i)
   ↔ 0 ≤ i ∧ i < len (OHLC.Time df) ∧ i < len (OHLC.Open df)
     ∧ i < len (OHLC.Close df) ∧ i < len (OHLC.Low df)
     ∧ i < len (OHLC.High df) ∧ i < len (OHLC.Volume df))
  ∧ (∀ c, OHLC_Candle df i = Some c →
       index (OHLC.Time df) i = Some (Candle.Time c)
       ∧ index (OHLC.Open df) i = Some (Candle.Open c)
       ∧ index (OHLC.Close df) i = Some (Candle.Close c)
       ∧ index (OHLC.Low df) i = Some (Candle.Low c)
       ∧ index (OHLC.High df) i = Some (Candle.High c)
       ∧ index (OHLC.Volume df) i = Some (Candle.Volume c)
       ∧ Candle.Pair c = "" ∧ Candle.UpdatedAt c = time.zero
       ∧ Candle.Complete c = false ∧ Candle.Metadata c = None).
Proof.
  split; [apply OHLC_Candle_is_Some_iff | apply OHLC_Candle_fields].
Qed.

Lemma OHLC_Candle_bounds_witness :
  is_Some (OHLC_Candle series2 1) ∧ ¬ is_Some (OHLC_Candle series2 2)
  ∧ ¬ is_Some (OHLC_Candle series2 (-1)).
Proof.
  split; [|split].
  - apply (proj1 (OHLC_Candle_bounds series2 1)). unfold len. cbn. lia.
  - intros H. apply (proj1 (OHLC_Candle_bounds series2 2)) in H.
    unfold len in H. cbn in H. lia.
  - intros H. apply (proj1 (OHLC_Candle_bounds series2 (-1))) in H. lia.
Defined.

(** ** Empty *)

(** A float is [== 0] exactly when it is one of the two zeros. *)
Lemma eqb_zero (x : float64) :
  (x == F64.zero)%f64 = true ↔ ∃ s, x = S754_zero s.
Proof.
  split.
  - destruct x as [s|[]| |[] ? ?]; try done. by exists s.
  - by intros [s ->].
Qed.

(** X2. Empty() holds exactly when the pair is empty and close, open and
    volume are each +0 or -0 (a NaN is not zero), whatever high, low, the
    times, the completion flag and the metadata are; a candle view Candle(i)
    never has a pair, so it is Empty() exactly when close, open and volume at
    i are zeros. *)
Theorem Empty_iff :
  (∀ c, Empty c = true
        ↔ Candle.Pair c = "" ∧ (∃ s, Candle.Close c = S754_zero s)
          ∧ (∃ s, Candle.Open c = S754_zero s)
          ∧ (∃ s, Candle.Volume c = S754_zero s))
  ∧ (∀ df i c,
       OHLC_Candle df i = Some c →
       (Empty c = true
        ↔ (∃ s, index (OHLC.Close df) i = Some (S754_zero s))
          ∧ (∃ s, index (OHLC.Open df) i = Some (S754_zero s))
          ∧ (∃ s, index (OHLC.Volume df) i = Some (S754_zero s)))).
Proof.
  assert (H1 : ∀ c, Empty c = true
        ↔ Candle.Pair c = "" ∧ (∃ s, Candle.Close c = S754_zero s)
          ∧ (∃ s, Candle.Open c = S754_zero s)
          ∧ (∃ s, Candle.Volume c = S754_zero s)).
  { intros c. unfold Empty. rewrite !andb_true_iff, bool_decide_eq_true.
    rewrite !eqb_zero. tauto. }
  split; [done|].
  intros df i c Hc. rewrite H1.
  destruct (OHLC_Candle_fields df i c Hc)
    as (_ & Ho & Hcl & _ & _ & Hv & HP & _).
  rewrite Ho, Hcl, Hv. split.
  - intros (_ & [s1 ->] & [s2 ->] & [s3 ->]). split_and!; by eexists.
  - intros ([s1 [= ->]] & [s2 [= ->]] & [s3 [= ->]]).
    split_and!; [done | by eexists ..].
Qed.

Lemma Empty_iff_witness :
  Empty (Candle.mk "" 7 9 (S754_zero true) F64.zero (f64 3) (f64 4)
           (S754_zero true) true (Some 1%positive)) = true.
Proof.
  apply (proj1 Empty_iff). cbn. split_and!; [done | by eexists ..].
Defined.

(** ** Last: offsets out of range *)

Lemma wrap_mod (z : Z) :
  ∃ q, wrap z = z + 18446744073709551616 * q
       ∧ - 9223372036854775808 ≤ wrap z ≤ 9223372036854775807.
Proof.
  unfold wrap. change (2 ^ 63) with 9223372036854775808.
  change (2 ^ 64) with 18446744073709551616.
  exists (- ((z + 9223372036854775808) / 18446744073709551616)).
  pose proof (Z.mod_pos_bound (z + 9223372036854775808)
                18446744073709551616 eq_refl).
  pose proof (Z.div_mod (z + 9223372036854775808)
                18446744073709551616 ltac:(done)).
  lia.
Qed.

(** X3. On a series without close entries Last returns the zero-value Candle
    whatever offsets are passed; on an aligned series with len > 0 entries
    Last(k) returns exactly when 0 <= k < len and panics for every other
    offset, negative ones included, and offsets after the first are
    ignored. *)
Theorem Last_offsets (df : OHLC.t) :
  (len (OHLC.Close df) = 0 → ∀ offsets, Last df offsets = Some Candle.zero)
  ∧ (∀ (n : nat) k rest,
       aligned df n → 0 < Z.of_nat n ≤ maxInt → minInt ≤ k ≤ maxInt →
       (is_Some (Last df (k :: rest)) ↔ 0 ≤ k < Z.of_nat n)
       ∧ Last df (k :: rest) = Last df [k]).
Proof.
  split.
  - intros H0 offsets. unfold Last. by rewrite H0.
  - intros n k rest Hal Hn Hk. split; [|done].
    assert (Hmin : minInt = - 9223372036854775808) by reflexivity.
    assert (Hmax : maxInt = 9223372036854775807) by reflexivity.
    destruct Hal as (Hc & Ho & Hh & Hl & Hv & Ht).
    unfold Last, len. rewrite Hc.
    destruct (Z.of_nat n =? 0) eqn:E; [lia|].
    rewrite (wrap_id (Z.of_nat n - 1)) by lia.
    rewrite OHLC_Candle_is_Some_iff. unfold len.
    rewrite Hc, Ho, Hh, Hl, Hv, Ht.
    destruct (wrap_mod (Z.of_nat n - 1 - k)) as (q & Hq & Hr).
    lia.
Qed.

Lemma Last_offsets_witness :
  (is_Some (Last series2 [1; 5]) ↔ 0 ≤ 1 < 2)
  ∧ (is_Some (Last series2 [-1]) ↔ 0 ≤ -1 < 2)
  ∧ (is_Some (Last series2 [2]) ↔ 0 ≤ 2 < 2)
  ∧ Last (OHLC.mk [] [f64 1] [] [] [] [] [] [7] false) [3] = Some Candle.zero.
Proof.
  split_and!.
  - apply (proj2 (Last_offsets series2) 2%nat 1 [5]); vm_compute;
      intuition discriminate.
  - apply (proj2 (Last_offsets series2) 2%nat (-1) []); vm_compute;
      intuition discriminate.
  - apply (proj2 (Last_offsets series2) 2%nat 2 []); vm_compute;
      intuition discriminate.
  - apply (proj1 (Last_offsets (OHLC.mk [] [f64 1] [] [] [] [] [] [7] false))).
    reflexivity.
Defined.

(** ** HL2, HLC3, OHLC4: sequences of different lengths *)

(** A loop fails when its body fails at one of its indices. *)
Lemma for_range_from_fails {St} (Q : St → Prop)
    (body : Z → St → option St) (j : nat) :
  (∀ k s s', Q s → body k s = Some s' → Q s') →
  (∀ s, Q s → body (Z.of_nat j) s = None) →
  ∀ n i st, (i ≤ j < i + n)%nat → Q st → for_range_from i n body st = None.
Proof.
  intros Hpres Hfail. induction n as [|n IH]; intros i st Hj HQ; [lia|].
  cbn. destruct (body (Z.of_nat i) st) as [st'|] eqn:E; [|done]. cbn.
  destruct (decide (i = j)) as [->|Hne].
  - by rewrite Hfail in E.
  - apply IH; [lia|]. by eapply Hpres.
Qed.

Lemma index_None {A} (s : list A) (i : Z) : len s ≤ i → index s i = None.
Proof.
  intros H. unfold index. replace (i <? len s) with false by lia.
  by rewrite andb_false_r.
Qed.

Lemma is_Some_index_of_nat {A} (s : list A) (j : nat) :
  (j < length s)%nat → ∃ x, index s (Z.of_nat j) = Some x ∧ s !! j = Some x.
Proof.
  intros H. destruct (lookup_lt_is_Some_2 s j H) as [x Hx].
  exists x. by rewrite index_of_nat.
Qed.

(** The result of a collecting loop has one entry per index. *)
Lemma for_range_collect_length {A} (body : Z → list A → option (list A)) :
  (∀ k r r', body k r = Some r' → length r' = S (length r)) →
  ∀ n i acc r, for_range_from i n body acc = Some r →
               length r = (length acc + n)%nat.
Proof.
  intros Hbody. induction n as [|n IH]; intros i acc r; cbn.
  - intros [= <-]. lia.
  - destruct (body (Z.of_nat i) acc) as [acc'|] eqn:E; [|done]. cbn.
    intros H. apply IH in H. apply Hbody in E. lia.
Qed.

(** X4. HL2, HLC3 and OHLC4 loop over the indices of the close sequence:
    each returns exactly when no sequence it reads is shorter than close
    (HL2 and HLC3 read high and low, OHLC4 open, high and low) and panics
    otherwise; a result has as many entries as close, entries of the other
    sequences beyond that being ignored. *)
Theorem price_averages_bounds (df : OHLC.t) :
  let n := length (OHLC.Close df) in
  (is_Some (HL2 df)
   ↔ (n ≤ length (OHLC.High df))%nat ∧ (n ≤ length (OHLC.Low df))%nat)
  ∧ (is_Some (HLC3 df)
     ↔ (n ≤ length (OHLC.High df))%nat ∧ (n ≤ length (OHLC.Low df))%nat)
  ∧ (is_Some (OHLC4 df)
     ↔ (n ≤ length (OHLC.Open df))%nat ∧ (n ≤ length (OHLC.High df))%nat
       ∧ (n ≤ length (OHLC.Low df))%nat)
  ∧ (∀ r, HL2 df = Some r ∨ HLC3 df = Some r ∨ OHLC4 df = Some r →
          length r = n).
Proof.
  intros n.
  assert (Hfail : ∀ (body : Z → list float64 → option (list float64))
                    (s : list float64),
             (∀ k r, index s k = None → body k r = None) →
             (length s < n)%nat →
             for_range n body [] = None).
  { intros body s Hb Hs.
    apply (for_range_from_fails (λ _, True) body (length s));
      [done | | lia | done].
    intros r _. apply Hb, index_None. unfold len. lia. }
  split_and!.
  - split.
    + intros HS.
      destruct (decide (n ≤ length (OHLC.High df))%nat) as [?|Hh].
      * destruct (decide (n ≤ length (OHLC.Low df))%nat) as [?|Hl]; [done|].
        unfold HL2 in HS. fold n in HS.
        rewrite (Hfail _ (OHLC.Low df)) in HS; [by destruct HS | | lia].
        intros k r ->. by destruct (index (OHLC.High df) k).
      * unfold HL2 in HS. fold n in HS.
        rewrite (Hfail _ (OHLC.High df)) in HS; [by destruct HS | | lia].
        by intros k r ->.
    + intros [Hh Hl]. unfold HL2, for_range. fold n.
      erewrite (for_range_collect _
                  (λ j, ((default F64.zero (OHLC.High df !! j)
                          + default F64.zero (OHLC.Low df !! j))
                         / f64 2)%f64)); [done|].
      intros j r Hj.
      destruct (is_Some_index_of_nat (OHLC.High df) j) as (h & -> & ->);
        [lia|].
      destruct (is_Some_index_of_nat (OHLC.Low df) j) as (l & -> & ->);
        [lia|].
      done.
  - split.
    + intros HS.
      destruct (decide (n ≤ length (OHLC.High df))%nat) as [?|Hh].
      * destruct (decide (n ≤ length (OHLC.Low df))%nat) as [?|Hl]; [done|].
        unfold HLC3 in HS. fold n in HS.
        rewrite (Hfail _ (OHLC.Low df)) in HS; [by destruct HS | | lia].
        intros k r ->. by destruct (index (OHLC.High df) k).
      * unfold HLC3 in HS. fold n in HS.
        rewrite (Hfail _ (OHLC.High df)) in HS; [by destruct HS | | lia].
        by intros k r ->.
    + intros [Hh Hl]. unfold HLC3, for_range. fold n.
      erewrite (for_range_collect _
                  (λ j, ((default F64.zero (OHLC.High df !! j)
                          + default F64.zero (OHLC.Low df !! j)
                          + default F64.zero (OHLC.Close df !! j))
                         / f64 3)%f64)); [done|].
      intros j r Hj.
      destruct (is_Some_index_of_nat (OHLC.High df) j) as (h & -> & ->);
        [lia|].
      destruct (is_Some_index_of_nat (OHLC.Low df) j) as (l & -> & ->);
        [lia|].
      destruct (is_Some_index_of_nat (OHLC.Close df) j) as (c & -> & ->);
        [unfold n in Hj; lia|].
      done.
  - split.
    + intros HS.
      destruct (decide (n ≤ length (OHLC.Open df))%nat) as [?|Ho].
      * destruct (decide (n ≤ length (OHLC.High df))%nat) as [?|Hh].
        -- destruct (decide (n ≤ length (OHLC.Low df))%nat) as [?|Hl];
             [done|].
           unfold OHLC4 in HS. fold n in HS.
           rewrite (Hfail _ (OHLC.Low df)) in HS; [by destruct HS | | lia].
           intros k r ->. destruct (index (OHLC.Open df) k); [|done].
           by destruct (index (OHLC.High df) k).
        -- unfold OHLC4 in HS. fold n in HS.
           rewrite (Hfail _ (OHLC.High df)) in HS; [by destruct HS | | lia].
           intros k r ->. by destruct (index (OHLC.Open df) k).
      * unfold OHLC4 in HS. fold n in HS.
        rewrite (Hfail _ (OHLC.Open df)) in HS; [by destruct HS | | lia].
        by intros k r ->.
    + intros (Ho & Hh & Hl). unfold OHLC4, for_range. fold n.
      erewrite (for_range_collect _
                  (λ j, ((default F64.zero (OHLC.Open df !! j)
                          + default F64.zero (OHLC.High df !! j)
                          + default F64.zero (OHLC.Low df !! j)
                          + default F64.zero (OHLC.Close df !! j))
                         / f64 4)%f64)); [done|].
      intros j r Hj.
      destruct (is_Some_index_of_nat (OHLC.Open df) j) as (o & -> & ->);
        [lia|].
      destruct (is_Some_index_of_nat (OHLC.High df) j) as (h & -> & ->);
        [lia|].
      destruct (is_Some_index_of_nat (OHLC.Low df) j) as (l & -> & ->);
        [lia|].
      destruct (is_Some_index_of_nat (OHLC.Close df) j) as (c & -> & ->);
        [unfold n in Hj; lia|].
      done.
  - intros r [H|[H|H]]; unfold HL2, HLC3, OHLC4, for_range in H;
      apply for_range_collect_length in H; try done;
      intros k a a' Hk;
      repeat match type of Hk with
             | context [index ?s k] => destruct (index s k); [|done]
             end;
      cbn in Hk; injection Hk as <-; rewrite length_app; cbn; lia.
Qed.

Lemma price_averages_bounds_witness :
  is_Some (HL2 (OHLC.mk [f64 1] [] [f64 3; f64 4] [f64 1; f64 2] [] [] [] []
                  false))
  ∧ ¬ is_Some (OHLC4 (OHLC.mk [f64 1] [] [f64 3; f64 4] [f64 1; f64 2] [] []
                        [] [] false)).
Proof.
  split.
  - apply (proj1 (price_averages_bounds _)). cbn. lia.
  - intros H. apply (proj1 (proj2 (proj2 (price_averages_bounds _)))) in H.
    cbn in H. lia.
Defined.

(** ** Sample: panics, frame, composition *)

Lemma slice_from_pos {A} (s : list A) (start : Z) :
  0 < start →
  slice_from s start
  = if start <=? len s then Some (drop (Z.to_nat start) s) else None.
Proof.
  intros H. unfold slice_from. by replace (0 <=? start) with true by lia.
Qed.

(** Sample in closed form, when [len(Time) - positions] does not overflow. *)
Lemma Sample_closed (df : Dataframe.t) (n : Z) :
  let o := Dataframe.ohlc df in
  let start := len (OHLC.Time o) - n in
  minInt ≤ start ≤ maxInt →
  Sample df n
  = if start <=? 0 then Some df
    else if (start <=? len (OHLC.Close o)) && (start <=? len (OHLC.Open o))
            && (start <=? len (OHLC.Low o)) && (start <=? len (OHLC.High o))
            && (start <=? len (OHLC.Volume o)) && (start <=? len (OHLC.Time o))
    then Some (windowed (Z.to_nat start) df)
    else None.
Proof.
  intros o start Hr. unfold Sample. fold o. fold start.
  rewrite wrap_id by done.
  destruct (start <=? 0) eqn:E; [done|].
  cbn [OHLC.Close OHLC.Open OHLC.High OHLC.Low OHLC.Volume OHLC.Time
       OHLC.with_Close OHLC.with_Open OHLC.with_High OHLC.with_Low
       OHLC.with_Volume OHLC.with_Time].
  rewrite !slice_from_pos by lia.
  destruct (start <=? len (OHLC.Close o)); [|done].
  destruct (start <=? len (OHLC.Open o)); [|done].
  destruct (start <=? len (OHLC.Low o)); [|done].
  destruct (start <=? len (OHLC.High o)); [|done].
  destruct (start <=? len (OHLC.Volume o)); [|done].
  destruct (start <=? len (OHLC.Time o)); [|done].
  done.
Qed.

(** X5. When len(Time) - n does not overflow, Sample(n) returns exactly when
    len(Time) <= n, or n >= 0 and none of close, open, low, high, volume has
    fewer than len(Time) - n entries; in every other case, and so for every
    negative n, the slice expressions panic. *)
Theorem Sample_returns_iff (df : Dataframe.t) (n : Z) :
  let o := Dataframe.ohlc df in
  let start := len (OHLC.Time o) - n in
  minInt ≤ start ≤ maxInt →
  (is_Some (Sample df n)
   ↔ len (OHLC.Time o) ≤ n
     ∨ (0 ≤ n ∧ start ≤ len (OHLC.Close o) ∧ start ≤ len (OHLC.Open o)
        ∧ start ≤ len (OHLC.Low o) ∧ start ≤ len (OHLC.High o)
        ∧ start ≤ len (OHLC.Volume o)))
  ∧ (n < 0 → Sample df n = None).
Proof.
  intros o start Hr. rewrite (Sample_closed df n Hr). fold o. fold start.
  assert (0 ≤ len (OHLC.Time o)) by (unfold len; lia).
  destruct (start <=? 0) eqn:E0.
  - split; [|lia]. split; [intros _; left; lia | by eexists].
  - destruct (start <=? len (OHLC.Close o)) eqn:E1,
             (start <=? len (OHLC.Open o)) eqn:E2,
             (start <=? len (OHLC.Low o)) eqn:E3,
             (start <=? len (OHLC.High o)) eqn:E4,
             (start <=? len (OHLC.Volume o)) eqn:E5,
             (start <=? len (OHLC.Time o)) eqn:E6; cbn;
      (split; [split; [first [by intros [? ?] | intros _; right; lia]
                      | first [by eexists | lia]]
              | first [done | lia]]).
Qed.

Lemma Sample_returns_iff_witness :
  Sample frame2 (-3) = None ∧ is_Some (Sample frame2 1).
Proof.
  split.
  - apply (proj2 (Sample_returns_iff frame2 (-3) ltac:(by vm_compute))).
    done.
  - apply (proj1 (Sample_returns_iff frame2 1 ltac:(by vm_compute))).
    right. vm_compute. intuition discriminate.
Defined.

(** Every result of Sample is the dataframe with one number of leading
    entries removed from the six windowed sequences. *)
Lemma Sample_windowed (df s : Dataframe.t) (n : Z) :
  Sample df n = Some s → ∃ k, s = windowed k df.
Proof.
  unfold Sample.
  destruct (wrap (len (OHLC.Time (Dataframe.ohlc df)) - n) <=? 0) eqn:E.
  - intros [= <-]. exists 0%nat. unfold windowed. rewrite !drop_0.
    by destruct df as [? [] ? ?].
  - cbn [OHLC.Close OHLC.Open OHLC.High OHLC.Low OHLC.Volume OHLC.Time
         OHLC.with_Close OHLC.with_Open OHLC.with_High OHLC.with_Low
         OHLC.with_Volume OHLC.with_Time].
    rewrite !slice_from_pos by lia.
    repeat match goal with
           | |- context [if ?b then Some _ else None] =>
               destruct b; [|done]
           end.
    cbn. intros [= <-]. by eexists.
Qed.

(** X6. Whenever Sample(n) returns, pair, lastUpdate, the metadata map,
    changePercent, the bull-market flags and isHeikinAshi of the result are
    those of the receiver, and close, open, high, low, volume and time each
    are the original without one and the same number k of leading entries:
    changePercent and the flags are never windowed, so on a series where they
    have one entry per candle they keep k entries more than the others. *)
Theorem Sample_frame (df s : Dataframe.t) (n : Z) :
  Sample df n = Some s →
  let o := Dataframe.ohlc df in
  let o' := Dataframe.ohlc s in
  Dataframe.Pair s = Dataframe.Pair df
  ∧ Dataframe.LastUpdate s = Dataframe.LastUpdate df
  ∧ Dataframe.Metadata s = Dataframe.Metadata df
  ∧ OHLC.ChangePercent o' = OHLC.ChangePercent o
  ∧ OHLC.IsBullMarket o' = OHLC.IsBullMarket o
  ∧ OHLC.IsHeikinAshi o' = OHLC.IsHeikinAshi o
  ∧ ∃ k : nat,
      OHLC.Close o' = drop k (OHLC.Close o)
      ∧ OHLC.Open o' = drop k (OHLC.Open o)
      ∧ OHLC.High o' = drop k (OHLC.High o)
      ∧ OHLC.Low o' = drop k (OHLC.Low o)
      ∧ OHLC.Volume o' = drop k (OHLC.Volume o)
      ∧ OHLC.Time o' = drop k (OHLC.Time o)
      ∧ (length (OHLC.ChangePercent o) = length (OHLC.Close o) →
         (k ≤ length (OHLC.Close o))%nat →
         length (OHLC.ChangePercent o')
         = (length (OHLC.Close o') + k)%nat).
Proof.
  intros H o o'. destruct (Sample_windowed df s n H) as [k ->].
  subst o o'. cbn. split_and!; try done.
  exists k. split_and!; try done.
  intros Hcp Hk. rewrite length_drop. lia.
Qed.

Lemma Sample_frame_witness :
  ∃ s, Sample frame2 1 = Some s
       ∧ Dataframe.Pair s = "BTCUSDT"
       ∧ OHLC.ChangePercent (Dataframe.ohlc s) = [].
Proof.
  eexists. split; [reflexivity|].
  split.
  - apply (Sample_frame frame2 _ 1 eq_refl).
  - apply (Sample_frame frame2 _ 1 eq_refl).
Defined.

Lemma windowed_windowed (j k : nat) (df : Dataframe.t) :
  windowed j (windowed k df) = windowed (k + j) df.
Proof. unfold windowed. cbn. by rewrite !drop_drop. Qed.

Lemma windowed_aligned (k L : nat) (df : Dataframe.t) :
  aligned (Dataframe.ohlc df) L →
  aligned (Dataframe.ohlc (windowed k df)) (L - k).
Proof.
  intros (Hc & Ho & Hh & Hl & Hv & Ht). unfold aligned, windowed. cbn.
  rewrite !length_drop. lia.
Qed.

(** Sample on an aligned dataframe, for a count that is not negative. *)
Lemma Sample_aligned (df : Dataframe.t) (L : nat) (n : Z) :
  aligned (Dataframe.ohlc df) L → Z.of_nat L ≤ maxInt → 0 ≤ n ≤ maxInt →
  Sample df n
  = Some (if decide (Z.of_nat L ≤ n) then df
          else windowed (L - Z.to_nat n) df).
Proof.
  intros (Hc & Ho & Hh & Hl & Hv & Ht) HL Hn.
  assert (Hmin : minInt = - 9223372036854775808) by reflexivity.
  assert (Hmax : maxInt = 9223372036854775807) by reflexivity.
  rewrite Sample_closed by (unfold len; lia).
  unfold len. rewrite Hc, Ho, Hh, Hl, Hv, Ht.
  destruct (decide (Z.of_nat L ≤ n)).
  - by replace (Z.of_nat L - n <=? 0) with true by lia.
  - replace (Z.of_nat L - n <=? 0) with false by lia.
    replace (Z.of_nat L - n <=? Z.of_nat L) with true by lia. cbn.
    do 2 f_equal. lia.
Qed.

(** X7. On an aligned dataframe, sampling n and then m entries is sampling
    min(n, m) entries, for counts that are not negative; in particular
    Sample(n) twice is Sample(n) once. *)
Theorem Sample_Sample (df : Dataframe.t) (L : nat) (n m : Z) :
  aligned (Dataframe.ohlc df) L → Z.of_nat L ≤ maxInt →
  0 ≤ n ≤ maxInt → 0 ≤ m ≤ maxInt →
  Sample df n ≫= (λ s, Sample s m) = Sample df (Z.min n m)
  ∧ Sample df n ≫= (λ s, Sample s n) = Sample df n.
Proof.
  intros Hal HL Hn Hm.
  assert (Hgen : ∀ m, 0 ≤ m ≤ maxInt →
            Sample df n ≫= (λ s, Sample s m) = Sample df (Z.min n m)).
  { clear m Hm. intros m Hm.
    rewrite (Sample_aligned df L n Hal HL Hn).
    rewrite (Sample_aligned df L (Z.min n m) Hal HL) by lia. cbn.
    destruct (decide (Z.of_nat L ≤ n)) as [Hle|Hgt].
    - rewrite (Sample_aligned df L m Hal HL Hm).
      repeat case_decide; try done; try lia. do 2 f_equal. lia.
    - rewrite (Sample_aligned _ (L - (L - Z.to_nat n)) m
                 (windowed_aligned _ _ _ Hal)) by lia.
      repeat case_decide; try done; try lia.
      + do 2 f_equal. lia.
      + rewrite windowed_windowed. do 2 f_equal. lia. }
  split; [by apply Hgen|].
  rewrite (Hgen n Hn). by rewrite Z.min_id.
Qed.

Lemma Sample_Sample_witness :
  Sample frame2 2 ≫= (λ s, Sample s 1) = Sample frame2 1.
Proof.
  apply (Sample_Sample frame2 2 2 1); vm_compute; intuition discriminate.
Defined.

(** ** ToHeikinAshi: panics and lengths *)

Lemma store_length {A} (s s' : list A) (i : Z) (v : A) :
  store s i v = Some s' → length s' = length s.
Proof.
  unfold store. destruct ((0 <=? i) && (i <? len s)); [|done].
  intros [= <-]. apply length_insert.
Qed.

Lemma store_is_Some {A} (s : list A) (i : Z) (v : A) :
  0 ≤ i < len s → ∃ s', store s i v = Some s' ∧ length s' = length s.
Proof.
  intros H. unfold store.
  replace ((0 <=? i) && (i <? len s)) with true by lia.
  eexists. split; [done|]. apply length_insert.
Qed.

(** An iteration keeps the length of every sequence, and the flag. *)
Lemma ToHeikinAshi_body_lengths (i : Z) (df df' : OHLC.t)
    (ha ha' : HeikinAshi.t) :
  ToHeikinAshi_body i (df, ha) = Some (df', ha') →
  lengths df' = lengths df ∧ OHLC.IsHeikinAshi df' = OHLC.IsHeikinAshi df.
Proof.
  unfold ToHeikinAshi_body.
  destruct (OHLC_Candle df i) as [c|]; [|done].
  cbn [mbind option_bind].
  destruct (Candle_ToHeikinAshi c ha) as [k ha1].
  repeat match goal with
    | |- context [store ?s i ?x ≫= _] =>
        let E := fresh "Es" in
        destruct (store s i x) eqn:E; [apply store_length in E|done];
        cbn [mbind option_bind OHLC.Close OHLC.Open OHLC.High OHLC.Low
             OHLC.Volume OHLC.Time OHLC.ChangePercent OHLC.IsBullMarket
             OHLC.with_Close OHLC.with_Open OHLC.with_High OHLC.with_Low
             OHLC.with_Volume OHLC.with_ChangePercent] in *
    | |- context [index ?s i ≫= _] =>
        destruct (index s i); [|done]; cbn [mbind option_bind]
    end.
  destruct (gtb _ _).
  - destruct (store (OHLC.IsBullMarket df) i true) eqn:Eb; [|done].
    apply store_length in Eb. cbn. intros [= <- <-].
    unfold lengths. cbn. split; [congruence | done].
  - intros [= <- <-]. unfold lengths. cbn. split; [congruence | done].
Qed.

(** An iteration at an index of the six sequences read and of the two derived
    ones does not panic. *)
Lemma ToHeikinAshi_body_is_Some (i : Z) (df : OHLC.t) (ha : HeikinAshi.t) :
  Forall (λ n, 0 ≤ i < Z.of_nat n) (lengths df) →
  is_Some (ToHeikinAshi_body i (df, ha)).
Proof.
  intros H. unfold lengths in H.
  repeat match goal with
         | H : Forall _ (_ :: _) |- _ => apply Forall_cons in H as [? H]
         end.
  unfold ToHeikinAshi_body.
  destruct (proj2 (OHLC_Candle_is_Some_iff df i)) as [c ->];
    [unfold len; lia|].
  cbn [mbind option_bind].
  destruct (Candle_ToHeikinAshi c ha) as [k ha1].
  repeat match goal with
    | |- context [store ?s i ?x ≫= _] =>
        let E := fresh "Es" in
        let L := fresh "Ls" in
        destruct (store_is_Some s i x) as (? & E & L);
        [unfold len; lia|]; rewrite E;
        cbn [mbind option_bind OHLC.Close OHLC.Open OHLC.High OHLC.Low
             OHLC.Volume OHLC.Time OHLC.ChangePercent OHLC.IsBullMarket
             OHLC.with_Close OHLC.with_Open OHLC.with_High OHLC.with_Low
             OHLC.with_Volume OHLC.with_ChangePercent] in *
    | |- context [index ?s i ≫= _] =>
        destruct (index_is_Some s i) as [? ->]; [unfold len; lia|];
        cbn [mbind option_bind]
    end.
  destruct (gtb _ _); by eexists.
Qed.

(** An iteration at an index that one of the six sequences read lacks
    panics. *)
Lemma ToHeikinAshi_body_None (i : Z) (df : OHLC.t) (ha : HeikinAshi.t) :
  len (OHLC.Time df) ≤ i ∨ len (OHLC.Open df) ≤ i ∨ len (OHLC.Close df) ≤ i
  ∨ len (OHLC.Low df) ≤ i ∨ len (OHLC.High df) ≤ i
  ∨ len (OHLC.Volume df) ≤ i →
  ToHeikinAshi_body i (df, ha) = None.
Proof.
  intros H. unfold ToHeikinAshi_body.
  destruct (OHLC_Candle df i) as [c|] eqn:E; [|done].
  apply mk_is_Some, OHLC_Candle_is_Some_iff in E. lia.
Qed.

Lemma ToHeikinAshi_loop_is_Some (n : nat) :
  ∀ (i : nat) (st : OHLC.t * HeikinAshi.t),
    Forall (λ m, (i + n ≤ m)%nat) (lengths st.1) →
    is_Some (for_range_from i n ToHeikinAshi_body st).
Proof.
  induction n as [|n IH]; intros i [df ha] H; cbn [for_range_from];
    [by eexists|].
  destruct (ToHeikinAshi_body_is_Some (Z.of_nat i) df ha) as [[df' ha'] E].
  { eapply Forall_impl; [exact H|]. cbn. lia. }
  rewrite E. cbn [mbind option_bind]. apply IH. cbn [fst] in *.
  destruct (ToHeikinAshi_body_lengths _ _ _ _ _ E) as [-> _].
  eapply Forall_impl; [exact H|]. cbn. lia.
Qed.

Lemma ToHeikinAshi_loop_None (n j : nat) (df : OHLC.t) (ha : HeikinAshi.t) :
  (j < n)%nat →
  (length (OHLC.Time df) ≤ j ∨ length (OHLC.Open df) ≤ j
   ∨ length (OHLC.Close df) ≤ j ∨ length (OHLC.Low df) ≤ j
   ∨ length (OHLC.High df) ≤ j ∨ length (OHLC.Volume df) ≤ j)%nat →
  for_range_from 0 n ToHeikinAshi_body (df, ha) = None.
Proof.
  intros Hj Hshort.
  apply (for_range_from_fails (λ st, lengths st.1 = lengths df) _ j);
    [| | lia | done].
  - intros k [d h] [d' h'] HQ Hb. cbn in *.
    by destruct (ToHeikinAshi_body_lengths _ _ _ _ _ Hb) as [-> _].
  - intros [d h] HQ. cbn in HQ. apply ToHeikinAshi_body_None.
    unfold lengths in HQ. injection HQ as H1 H2 H3 H4 H5 _ _ H8.
    unfold len. lia.
Qed.

Lemma ToHeikinAshi_is_Some_iff (df : OHLC.t) :
  is_Some (OHLC_ToHeikinAshi df)
  ↔ (length (OHLC.Time df) ≤ length (OHLC.Close df)
     ∧ length (OHLC.Time df) ≤ length (OHLC.Open df)
     ∧ length (OHLC.Time df) ≤ length (OHLC.High df)
     ∧ length (OHLC.Time df) ≤ length (OHLC.Low df)
     ∧ length (OHLC.Time df) ≤ length (OHLC.Volume df))%nat.
Proof.
  unfold OHLC_ToHeikinAshi, for_range.
  cbn [OHLC.Close OHLC.Time OHLC.with_ChangePercent OHLC.with_IsBullMarket].
  set (n := length (OHLC.Time df)).
  set (df0 := OHLC.with_IsBullMarket _ _).
  split.
  - intros HS.
    destruct (decide (n ≤ length (OHLC.Close df)
                      ∧ n ≤ length (OHLC.Open df)
                      ∧ n ≤ length (OHLC.High df)
                      ∧ n ≤ length (OHLC.Low df)
                      ∧ n ≤ length (OHLC.Volume df))%nat) as [?|Hn]; [done|].
    set (j := Nat.min (length (OHLC.Close df))
                (Nat.min (length (OHLC.Open df))
                   (Nat.min (length (OHLC.High df))
                      (Nat.min (length (OHLC.Low df))
                         (length (OHLC.Volume df)))))).
    rewrite (ToHeikinAshi_loop_None n j) in HS.
    + by destruct HS.
    + lia.
    + subst df0. cbn. lia.
  - intros H.
    destruct (ToHeikinAshi_loop_is_Some n 0 (df0, NewHeikinAshi))
      as [[df1 ha1] ->]; [|by eexists].
    subst df0. unfold lengths. cbn. rewrite !length_replicate.
    repeat (apply Forall_cons; split; [lia|]). done.
Qed.

Lemma ToHeikinAshi_core_lengths (df df' : OHLC.t) :
  OHLC_ToHeikinAshi df = Some df' →
  length (OHLC.Close df') = length (OHLC.Close df)
  ∧ length (OHLC.Open df') = length (OHLC.Open df)
  ∧ length (OHLC.High df') = length (OHLC.High df)
  ∧ length (OHLC.Low df') = length (OHLC.Low df)
  ∧ length (OHLC.Volume df') = length (OHLC.Volume df)
  ∧ length (OHLC.Time df') = length (OHLC.Time df)
  ∧ length (OHLC.ChangePercent df') = length (OHLC.Close df)
  ∧ length (OHLC.IsBullMarket df') = length (OHLC.Close df)
  ∧ OHLC.IsHeikinAshi df' = true.
Proof.
  unfold OHLC_ToHeikinAshi, for_range.
  cbn [OHLC.Close OHLC.Time OHLC.with_ChangePercent OHLC.with_IsBullMarket].
  set (df0 := OHLC.with_IsBullMarket _ _).
  destruct (for_range_from 0 _ ToHeikinAshi_body (df0, NewHeikinAshi))
    as [[df1 ha1]|] eqn:E; [|done].
  cbn. intros [= <-].
  apply (for_range_from_invariant
           (λ st, lengths st.1 = lengths df0)) in E; [|  | done].
  - cbn in E. unfold lengths in E. subst df0. cbn in E.
    rewrite !length_replicate in E.
    injection E as H1 H2 H3 H4 H5 H6 H7 H8. done.
  - intros i [d h] [d' h'] HQ Hb. cbn in *.
    by destruct (ToHeikinAshi_body_lengths _ _ _ _ _ Hb) as [-> _].
Qed.

(** X8. ToHeikinAshi returns exactly when none of close, open, high, low and
    volume has fewer entries than time; otherwise it panics on the first index
    that one of them lacks. *)
Theorem ToHeikinAshi_returns_iff (df : OHLC.t) :
  is_Some (OHLC_ToHeikinAshi df)
  ↔ (length (OHLC.Time df) ≤ length (OHLC.Close df)
     ∧ length (OHLC.Time df) ≤ length (OHLC.Open df)
     ∧ length (OHLC.Time df) ≤ length (OHLC.High df)
     ∧ length (OHLC.Time df) ≤ length (OHLC.Low df)
     ∧ length (OHLC.Time df) ≤ length (OHLC.Volume df))%nat.
Proof. apply ToHeikinAshi_is_Some_iff.
Qed.

Lemma ToHeikinAshi_returns_iff_witness :
  is_Some (OHLC_ToHeikinAshi series2)
  ∧ ¬ is_Some (OHLC_ToHeikinAshi (OHLC.with_Volume [f64 1] series2)).
Proof.
  split.
  - apply (proj2 (ToHeikinAshi_returns_iff series2)). cbn. lia.
  - intros H. apply (proj1 (ToHeikinAshi_returns_iff _)) in H.
    cbn in H. lia.
Defined.

(** X9. Whenever ToHeikinAshi returns, close, open, high, low, volume and
    time have the lengths they had, changePercent and the bull-market flags
    have the length of close, and isHeikinAshi is true. *)
Theorem ToHeikinAshi_lengths (df df' : OHLC.t) :
  OHLC_ToHeikinAshi df = Some df' →
  length (OHLC.Close df') = length (OHLC.Close df)
  ∧ length (OHLC.Open df') = length (OHLC.Open df)
  ∧ length (OHLC.High df') = length (OHLC.High df)
  ∧ length (OHLC.Low df') = length (OHLC.Low df)
  ∧ length (OHLC.Volume df') = length (OHLC.Volume df)
  ∧ length (OHLC.Time df') = length (OHLC.Time df)
  ∧ length (OHLC.ChangePercent df') = length (OHLC.Close df)
  ∧ length (OHLC.IsBullMarket df') = length (OHLC.Close df)
  ∧ OHLC.IsHeikinAshi df' = true.
Proof. apply ToHeikinAshi_core_lengths.
Qed.

Lemma ToHeikinAshi_lengths_witness :
  ∃ df', OHLC_ToHeikinAshi series2 = Some df'
         ∧ length (OHLC.ChangePercent df') = 2%nat
         ∧ length (OHLC.IsBullMarket df') = 2%nat.
Proof.
  destruct (OHLC_ToHeikinAshi series2) as [df'|] eqn:E;
    [|vm_compute in E; discriminate].
  exists df'. split; [done|].
  split; apply (ToHeikinAshi_lengths series2 df' E).
Defined.

(** ** ToHeikinAshi: the flags of the receiver are never read *)

Lemma ToHeikinAshi_body_flag (b : bool) (i : Z) (df : OHLC.t)
    (ha : HeikinAshi.t) :
  ToHeikinAshi_body i (OHLC.with_IsHeikinAshi b df, ha)
  = prod_map (OHLC.with_IsHeikinAshi b) id <$> ToHeikinAshi_body i (df, ha).
Proof.
  destruct df as [cl op hi lo vo cp bm tm ish].
  unfold ToHeikinAshi_body, OHLC_Candle, OHLC.with_IsHeikinAshi.
  cbn [OHLC.Close OHLC.Open OHLC.High OHLC.Low OHLC.Volume OHLC.Time
       OHLC.ChangePercent OHLC.IsBullMarket OHLC.IsHeikinAshi].
  repeat match goal with
    | |- context [index ?s i ≫= _] =>
        destruct (index s i); [|done]; cbn [mbind option_bind]
    end.
  destruct (Candle_ToHeikinAshi _ ha) as [k ha1].
  repeat match goal with
    | |- context [store ?s i ?x ≫= _] =>
        destruct (store s i x); [|by repeat case_match];
        cbn [mbind option_bind OHLC.Close OHLC.Open OHLC.High OHLC.Low
             OHLC.Volume OHLC.Time OHLC.ChangePercent OHLC.IsBullMarket
             OHLC.IsHeikinAshi
             OHLC.with_Close OHLC.with_Open OHLC.with_High OHLC.with_Low
             OHLC.with_Volume OHLC.with_ChangePercent
             OHLC.with_IsBullMarket]
    | |- context [index ?s i ≫= _] =>
        destruct (index s i); [|done]; cbn [mbind option_bind]
    end.
  by destruct (gtb _ _).
Qed.

Lemma ToHeikinAshi_loop_flag (b : bool) (n : nat) :
  ∀ (i : nat) df ha,
    for_range_from i n ToHeikinAshi_body (OHLC.with_IsHeikinAshi b df, ha)
    = prod_map (OHLC.with_IsHeikinAshi b) id
        <$> for_range_from i n ToHeikinAshi_body (df, ha).
Proof.
  induction n as [|n IH]; intros i df ha; cbn [for_range_from]; [done|].
  rewrite ToHeikinAshi_body_flag.
  destruct (ToHeikinAshi_body (Z.of_nat i) (df, ha)) as [[d h]|]; [|done].
  cbn. apply IH.
Qed.

Lemma ToHeikinAshi_flags (df : OHLC.t) (cp : list float64) (bm : list bool)
    (b : bool) :
  OHLC_ToHeikinAshi
    (OHLC.with_IsHeikinAshi b
       (OHLC.with_ChangePercent cp (OHLC.with_IsBullMarket bm df)))
  = OHLC_ToHeikinAshi df.
Proof.
  destruct df as [cl op hi lo vo cp0 bm0 tm ish].
  unfold OHLC_ToHeikinAshi, for_range, OHLC.with_ChangePercent,
    OHLC.with_IsBullMarket.
  cbn [OHLC.Close OHLC.Open OHLC.High OHLC.Low OHLC.Volume OHLC.Time
       OHLC.ChangePercent OHLC.IsBullMarket OHLC.IsHeikinAshi
       OHLC.with_IsHeikinAshi].
  pose proof (ToHeikinAshi_loop_flag b (length tm) 0
                (OHLC.mk cl op hi lo vo (replicate (length cl) F64.zero)
                   (replicate (length cl) false) tm ish) NewHeikinAshi) as H.
  unfold OHLC.with_IsHeikinAshi in H at 1.
  cbn [OHLC.Close OHLC.Open OHLC.High OHLC.Low OHLC.Volume OHLC.Time
       OHLC.ChangePercent OHLC.IsBullMarket OHLC.IsHeikinAshi] in H.
  unfold OHLC.with_IsHeikinAshi at 1.
  cbn [OHLC.Close OHLC.Open OHLC.High OHLC.Low OHLC.Volume OHLC.Time
       OHLC.ChangePercent OHLC.IsBullMarket OHLC.IsHeikinAshi].
  rewrite H.
  match goal with
  | |- context [for_range_from 0 ?n ToHeikinAshi_body ?st] =>
      destruct (for_range_from 0 n ToHeikinAshi_body st) as [[[] ?]|]
  end; done.
Qed.

(** X10. ToHeikinAshi never reads changePercent, the bull-market flags or
    isHeikinAshi of its receiver: series that differ in these only are
    transformed alike; so a series that a call has converted is not refused by
    a second call, which returns as well and smooths the smoothed data
    again. *)
Theorem ToHeikinAshi_ignores_flags :
  (∀ df cp bm b,
     OHLC_ToHeikinAshi
       (OHLC.with_IsHeikinAshi b
          (OHLC.with_ChangePercent cp (OHLC.with_IsBullMarket bm df)))
     = OHLC_ToHeikinAshi df)
  ∧ (∀ df df1,
       OHLC_ToHeikinAshi df = Some df1 →
       OHLC.IsHeikinAshi df1 = true
       ∧ is_Some (OHLC_ToHeikinAshi df1)
       ∧ OHLC_ToHeikinAshi df1
         = OHLC_ToHeikinAshi (OHLC.with_IsHeikinAshi false df1)).
Proof.
  split; [apply ToHeikinAshi_flags|].
  intros df df1 H.
  destruct (ToHeikinAshi_core_lengths df df1 H)
    as (Hc & Ho & Hh & Hl & Hv & Ht & _ & _ & Hf).
  split; [done|]. split.
  - apply ToHeikinAshi_is_Some_iff.
    apply mk_is_Some, ToHeikinAshi_is_Some_iff in H. lia.
  - destruct df1 as [cl op hi lo vo cp bm tm ish].
    symmetry. apply (ToHeikinAshi_flags _ cp bm false).
Qed.

Lemma ToHeikinAshi_ignores_flags_witness :
  ∃ df1, OHLC_ToHeikinAshi series2 = Some df1
         ∧ is_Some (OHLC_ToHeikinAshi df1).
Proof.
  destruct (OHLC_ToHeikinAshi series2) as [df1|] eqn:E;
    [|vm_compute in E; discriminate].
  exists df1. split; [done|].
  apply (proj2 ToHeikinAshi_ignores_flags series2 df1 E).
Defined.

(** ** The smoothed candle is well formed *)

(** X11. On every call of CalculateHeikinAshi, whatever candle is stored:
    close' is the mean of the four raw prices, and when the raw high and low
    and the smoothed open and close are not NaN, high' is the largest of raw
    high, open' and close' and low' the smallest of raw low, open' and close',
    so that low' <= open', close' <= high', low' <= raw low and raw high <=
    high'. *)
Theorem CalculateHeikinAshi_well_formed (ha : HeikinAshi.t) (c : Candle.t) :
  let hk := (CalculateHeikinAshi ha c).1 in
  Candle.Close hk
  = ((Candle.Open c + Candle.High c + Candle.Low c + Candle.Close c)
     / f64 4)%f64
  ∧ (IsNaN (Candle.High c) = false → IsNaN (Candle.Low c) = false →
     IsNaN (Candle.Open hk) = false → IsNaN (Candle.Close hk) = false →
     SFleb (Candle.Low hk) (Candle.Open hk) = true
     ∧ SFleb (Candle.Open hk) (Candle.High hk) = true
     ∧ SFleb (Candle.Low hk) (Candle.Close hk) = true
     ∧ SFleb (Candle.Close hk) (Candle.High hk) = true
     ∧ SFleb (Candle.Low hk) (Candle.Low c) = true
     ∧ SFleb (Candle.High c) (Candle.High hk) = true
     ∧ (Candle.High hk = Candle.High c ∨ Candle.High hk = Candle.Open hk
        ∨ Candle.High hk = Candle.Close hk)
     ∧ (Candle.Low hk = Candle.Low c ∨ Candle.Low hk = Candle.Open hk
        ∨ Candle.Low hk = Candle.Close hk)).
Proof.
  intros hk. split; [apply CalculateHeikinAshi_close|].
  intros Hh Hl Ho Hc. subst hk.
  rewrite CalculateHeikinAshi_high, CalculateHeikinAshi_low.
  destruct (Max3_upper _ _ _ Hh Ho Hc) as (? & ? & ? & ?).
  destruct (Min3_lower _ _ _ Hl Ho Hc) as (? & ? & ? & ?).
  done.
Qed.

Lemma CalculateHeikinAshi_well_formed_witness :
  let hk := (CalculateHeikinAshi
               (CalculateHeikinAshi NewHeikinAshi (raw 10 20 25 5)).2
               (raw 30 12 31 11)).1 in
  SFleb (Candle.Low hk) (Candle.Open hk) = true
  ∧ SFleb (Candle.Open hk) (Candle.High hk) = true.
Proof.
  intros hk.
  destruct (proj2 (CalculateHeikinAshi_well_formed
                     (CalculateHeikinAshi NewHeikinAshi (raw 10 20 25 5)).2
                     (raw 30 12 31 11)))
    as (H1 & H2 & _); [by vm_compute ..|].
  by split.
Defined.

(** ** ToHeikinAshi: the recurrence along the series *)

(** What one smoothing step leaves in the recurrence. *)
Lemma Candle_ToHeikinAshi_state (c : Candle.t) (ha : HeikinAshi.t) :
  let k := (Candle_ToHeikinAshi c ha).1 in
  let ha' := (Candle_ToHeikinAshi c ha).2 in
  let hk := (CalculateHeikinAshi ha c).1 in
  Candle.Open k = Candle.Open hk ∧ Candle.Close k = Candle.Close hk
  ∧ Candle.High k = Candle.High hk ∧ Candle.Low k = Candle.Low hk
  ∧ Candle.Volume k = Candle.Volume c ∧ Candle.Time k = Candle.Time c
  ∧ Candle.Open (HeikinAshi.PreviousHACandle ha') = Candle.Open k
  ∧ Candle.Close (HeikinAshi.PreviousHACandle ha') = Candle.Close k
  ∧ Empty (HeikinAshi.PreviousHACandle ha')
    = (Candle.Open k == F64.zero)%f64 && (Candle.Close k == F64.zero)%f64.
Proof.
  unfold Candle_ToHeikinAshi.
  pose proof (CalculateHeikinAshi_stores ha c) as Hst.
  pose proof (CalculateHeikinAshi_rest ha c) as (HP & HV & _).
  destruct (CalculateHeikinAshi ha c) as [hk ha1]. cbn in *.
  rewrite Hst. split_and!; try done. by apply Empty_prices.
Qed.

Lemma smooth_cons (ha : HeikinAshi.t) (c : Candle.t) (cs : list Candle.t) :
  smooth ha (c :: cs)
  = (Candle_ToHeikinAshi c ha).1 :: smooth (Candle_ToHeikinAshi c ha).2 cs.
Proof. cbn. by destruct (Candle_ToHeikinAshi c ha). Qed.

(** The opening price of a smoothed candle, from its predecessor. *)
Lemma smooth_open_next (cs : list Candle.t) :
  ∀ ha (i : nat) h h' c',
    smooth ha cs !! i = Some h → smooth ha cs !! S i = Some h' →
    cs !! S i = Some c' →
    Candle.Open h'
    = if (Candle.Open h == F64.zero)%f64 && (Candle.Close h == F64.zero)%f64
      then ((Candle.Open c' + Candle.Close c') / f64 2)%f64
      else ((Candle.Open h + Candle.Close h) / f64 2)%f64.
Proof.
  induction cs as [|c cs IH]; intros ha i h h' c' Hh Hh' Hc'; [done|].
  rewrite smooth_cons in Hh, Hh'.
  destruct i as [|i]; [|by eapply IH].
  cbn in Hh, Hh', Hc'. injection Hh as <-.
  destruct cs as [|c2 cs]; [done|]. cbn in Hc'. injection Hc' as ->.
  rewrite smooth_cons in Hh'. cbn in Hh'. injection Hh' as <-.
  destruct (Candle_ToHeikinAshi_state c ha)
    as (_ & _ & _ & _ & _ & _ & Ho & Hc & HE).
  destruct (Candle_ToHeikinAshi_state c' (Candle_ToHeikinAshi c ha).2)
    as (-> & _).
  rewrite <- HE, <- Ho, <- Hc.
  destruct (Empty _) eqn:E.
  - by apply CalculateHeikinAshi_open_seed.
  - by apply CalculateHeikinAshi_open_rec.
Qed.

(** Each smoothed candle, from its raw candle. *)
Lemma smooth_lookup (cs : list Candle.t) :
  ∀ ha (i : nat) k c,
    smooth ha cs !! i = Some k → cs !! i = Some c →
    Candle.Close k
    = ((Candle.Open c + Candle.High c + Candle.Low c + Candle.Close c)
       / f64 4)%f64
    ∧ Candle.High k
      = Max (Candle.High c) (Max (Candle.Open k) (Candle.Close k))
    ∧ Candle.Low k
      = Min (Candle.Low c) (Min (Candle.Open k) (Candle.Close k)).
Proof.
  induction cs as [|c0 cs IH]; intros ha i k c Hk Hc; [done|].
  rewrite smooth_cons in Hk.
  destruct i as [|i]; [|by eapply IH].
  cbn in Hk, Hc. injection Hk as <-. injection Hc as ->.
  destruct (Candle_ToHeikinAshi_state c ha) as (-> & -> & -> & -> & _).
  split_and!.
  - apply CalculateHeikinAshi_close.
  - apply CalculateHeikinAshi_high.
  - apply CalculateHeikinAshi_low.
Qed.

(** The result of ToHeikinAshi on an aligned series, by columns. *)
Lemma ToHeikinAshi_columns (df : OHLC.t) (L : nat) :
  aligned df L →
  ∃ cs df',
    OHLC_ToHeikinAshi df = Some df'
    ∧ length cs = L
    ∧ OHLC.Close df = Candle.Close <$> cs
    ∧ OHLC.Open df = Candle.Open <$> cs
    ∧ OHLC.High df = Candle.High <$> cs
    ∧ OHLC.Low df = Candle.Low <$> cs
    ∧ OHLC.Close df' = Candle.Close <$> smooth NewHeikinAshi cs
    ∧ OHLC.Open df' = Candle.Open <$> smooth NewHeikinAshi cs
    ∧ OHLC.High df' = Candle.High <$> smooth NewHeikinAshi cs
    ∧ OHLC.Low df' = Candle.Low <$> smooth NewHeikinAshi cs.
Proof.
  intros Hal.
  destruct (ToHeikinAshi_aligned df L Hal) as [Heq _].
  destruct (raw_candles_is_Some df L Hal) as [cs Hcs].
  destruct (raw_candles_columns df L cs Hal Hcs)
    as (Hlen & Hc & Ho & Hh & Hl & _).
  unfold ToHeikinAshi_specified in Heq. rewrite Hcs in Heq. cbn in Heq.
  eexists cs, _. split; [exact Heq|]. cbn. by split_and!.
Qed.

(** X12. After ToHeikinAshi on an aligned series the opening prices follow
    the recurrence along the series: open'[0] is the mean of the raw open and
    close at 0, and open'[i+1] is the mean of the smoothed open'[i] and
    close'[i], except when both of these are zero, where it is the mean of the
    raw open and close at i+1. *)
Theorem ToHeikinAshi_open_recurrence (df : OHLC.t) (L : nat) :
  aligned df L →
  ∃ df',
    OHLC_ToHeikinAshi df = Some df'
    ∧ (∀ ro rc,
         OHLC.Open df !! 0%nat = Some ro → OHLC.Close df !! 0%nat = Some rc →
         OHLC.Open df' !! 0%nat = Some ((ro + rc) / f64 2)%f64)
    ∧ (∀ (i : nat) o c ro rc,
         OHLC.Open df' !! i = Some o → OHLC.Close df' !! i = Some c →
         OHLC.Open df !! S i = Some ro → OHLC.Close df !! S i = Some rc →
         OHLC.Open df' !! S i
         = Some (if (o == F64.zero)%f64 && (c == F64.zero)%f64
                 then ((ro + rc) / f64 2)%f64
                 else ((o + c) / f64 2)%f64)).
Proof.
  intros Hal.
  destruct (ToHeikinAshi_columns df L Hal)
    as (cs & df' & Hdf' & Hlen & Hc & Ho & _ & _ & Hc' & Ho' & _).
  exists df'. split; [done|].
  rewrite Hc, Ho, Hc', Ho'. split.
  - intros ro rc. rewrite !list_lookup_fmap.
    destruct cs as [|c0 cs]; [done|]. rewrite smooth_cons. cbn.
    intros [= <-] [= <-].
    destruct (Candle_ToHeikinAshi_state c0 NewHeikinAshi) as (-> & _).
    by rewrite CalculateHeikinAshi_open_seed.
  - intros i o c ro rc. rewrite !list_lookup_fmap.
    destruct (smooth NewHeikinAshi cs !! i) as [h|] eqn:Eh; [|done].
    destruct (cs !! S i) as [c'|] eqn:Ec'; [|done].
    destruct (smooth NewHeikinAshi cs !! S i) as [h'|] eqn:Eh'.
    + cbn. intros [= <-] [= <-] [= <-] [= <-]. f_equal.
      by eapply smooth_open_next.
    + apply lookup_ge_None_1 in Eh'. apply lookup_lt_Some in Ec'.
      destruct (smooth_frame cs NewHeikinAshi) as (_ & _ & Hl). lia.
Qed.

Lemma ToHeikinAshi_open_recurrence_witness :
  ∃ df', OHLC_ToHeikinAshi series2 = Some df'
         ∧ OHLC.Open df' !! 0%nat = Some ((f64 10 + f64 20) / f64 2)%f64.
Proof.
  destruct (ToHeikinAshi_open_recurrence series2 2) as (df' & H & H0 & _).
  { vm_compute. intuition discriminate. }
  exists df'. split; [done|]. by apply H0.
Defined.

(** X13. After ToHeikinAshi on an aligned series, at every index close' is
    the mean of the four raw prices there, high' is Max(raw high, Max(open',
    close')) and low' is Min(raw low, Min(open', close')); when the raw high
    and low and the smoothed open and close at the index are not NaN, low' <=
    open', close' <= high'. *)
Theorem ToHeikinAshi_candles_well_formed (df : OHLC.t) (L : nat) :
  aligned df L →
  ∃ df',
    OHLC_ToHeikinAshi df = Some df'
    ∧ ∀ (i : nat) ro rh rl rc o' c',
        OHLC.Open df !! i = Some ro → OHLC.High df !! i = Some rh →
        OHLC.Low df !! i = Some rl → OHLC.Close df !! i = Some rc →
        OHLC.Open df' !! i = Some o' → OHLC.Close df' !! i = Some c' →
        c' = ((ro + rh + rl + rc) / f64 4)%f64
        ∧ OHLC.High df' !! i = Some (Max rh (Max o' c'))
        ∧ OHLC.Low df' !! i = Some (Min rl (Min o' c'))
        ∧ (IsNaN rh = false → IsNaN rl = false →
           IsNaN o' = false → IsNaN c' = false →
           SFleb (Min rl (Min o' c')) o' = true
           ∧ SFleb o' (Max rh (Max o' c')) = true
           ∧ SFleb (Min rl (Min o' c')) c' = true
           ∧ SFleb c' (Max rh (Max o' c')) = true).
Proof.
  intros Hal.
  destruct (ToHeikinAshi_columns df L Hal)
    as (cs & df' & Hdf' & Hlen & Hc & Ho & Hh & Hl & Hc' & Ho' & Hh' & Hl').
  exists df'. split; [done|].
  intros i ro rh rl rc o' c'.
  rewrite Hc, Ho, Hh, Hl, Hc', Ho', Hh', Hl', !list_lookup_fmap.
  destruct (cs !! i) as [c|] eqn:Ec; [|done].
  destruct (smooth NewHeikinAshi cs !! i) as [k|] eqn:Ek; [|done].
  cbn. intros [= <-] [= <-] [= <-] [= <-] [= <-] [= <-].
  destruct (smooth_lookup cs NewHeikinAshi i k c Ek Ec) as (HC & HH & HL).
  split_and!; [done | by rewrite HH | by rewrite HL |].
  intros Hnh Hnl Hno Hnc.
  destruct (Max3_upper _ _ _ Hnh Hno Hnc) as (? & ? & ? & _).
  destruct (Min3_lower _ _ _ Hnl Hno Hnc) as (? & ? & ? & _).
  done.
Qed.

Lemma ToHeikinAshi_candles_well_formed_witness :
  ∃ df', OHLC_ToHeikinAshi series2 = Some df'
         ∧ OHLC.Close df' !! 1%nat
           = Some ((f64 20 + f64 35 + f64 15 + f64 30) / f64 4)%f64.
Proof.
  destruct (ToHeikinAshi_candles_well_formed series2 2) as (df' & H & Hi).
  { vm_compute. intuition discriminate. }
  exists df'. split; [done|].
  assert (Hd := H). vm_compute in Hd. injection Hd as <-.
  edestruct (Hi 1%nat) as (Hc & _); [reflexivity ..|].
  cbn [OHLC.Close lookup list_lookup]. f_equal; try exact Hc.
Defined.

(** ** Account.Balance: which entries decide the result *)

Lemma default_last_cons {A} (d x : A) (l : list A) :
  default d (last (x :: l)) = default x (last l).
Proof. rewrite last_cons. by destruct (last l). Qed.

(** While no entry can set the quote slot, the loop is never left early and
    the asset slot ends with the last entry of its symbol. *)
Lemma Balance_loop_no_quote (x y : string) (bs : list Balance.t) :
  ∀ ab qb sa,
    Forall (λ b, Balance.Asset b = x ∨ Balance.Asset b ≠ y) bs →
    (Balance_loop bs x y (ab, qb, sa, false)).1.1
    = (default ab (last (filter (λ b, Balance.Asset b = x) bs)), qb).
Proof.
  induction bs as [|b bs IH]; intros ab qb sa Hbs; [done|].
  apply Forall_cons in Hbs as [Hb Hbs].
  cbn [Balance_loop]. unfold Balance_switch.
  destruct (bool_decide (Balance.Asset b = x)) eqn:Ex.
  - apply bool_decide_eq_true in Ex.
    rewrite filter_cons_True by done. rewrite default_last_cons.
    cbn [andb]. by apply IH.
  - apply bool_decide_eq_false in Ex.
    rewrite bool_decide_eq_false_2 by tauto.
    rewrite andb_false_r. rewrite filter_cons_False by done. by apply IH.
Qed.

(** While no entry can set the asset slot, the loop is never left early and
    the quote slot ends with the last entry of its symbol. *)
Lemma Balance_loop_no_asset (x y : string) (bs : list Balance.t) :
  ∀ ab qb sq,
    Forall (λ b, Balance.Asset b ≠ x) bs →
    (Balance_loop bs x y (ab, qb, false, sq)).1.1
    = (ab, default qb (last (filter (λ b, Balance.Asset b = y) bs))).
Proof.
  induction bs as [|b bs IH]; intros ab qb sq Hbs; [done|].
  apply Forall_cons in Hbs as [Hb Hbs].
  cbn [Balance_loop]. unfold Balance_switch.
  rewrite bool_decide_eq_false_2 by done.
  destruct (bool_decide (Balance.Asset b = y)) eqn:Ey.
  - apply bool_decide_eq_true in Ey.
    rewrite filter_cons_True by done. rewrite default_last_cons.
    cbn [andb]. by apply IH.
  - apply bool_decide_eq_false in Ey.
    rewrite filter_cons_False by done. cbn [andb]. by apply IH.
Qed.

Lemma matches_Forall (tick : string) (bs : list Balance.t) :
  matches tick bs = 0%nat → Forall (λ b, Balance.Asset b ≠ tick) bs.
Proof.
  intros H. apply Forall_forall. intros b Hb. by eapply matches_none.
Qed.

Lemma Account_Balance_pair (a : Account.t) (x y : string) :
  Account_Balance a x y
  = (Balance_loop (Account.Balances a) x y
       (Balance.zero, Balance.zero, false, false)).1.1.
Proof.
  unfold Account_Balance.
  by destruct (Balance_loop _ x y _) as [[[ab qb] sa] sq].
Qed.

(** X14. When only one of the two symbols has entries, or both symbols are
    the same, the scan is never left early and the slot holds the LAST entry
    of its symbol: with no entry for quoteTick, or with quoteTick equal to
    assetTick, Balance returns the last assetTick entry and a zero-value
    Balance; with no entry for assetTick it returns a zero-value Balance and
    the last quoteTick entry. *)
Theorem Account_Balance_last (a : Account.t) (x y : string) :
  let bs := Account.Balances a in
  (matches y bs = 0%nat →
   Account_Balance a x y = (last_match x bs, Balance.zero))
  ∧ (matches x bs = 0%nat →
     Account_Balance a x y = (Balance.zero, last_match y bs))
  ∧ Account_Balance a x x = (last_match x bs, Balance.zero).
Proof.
  intros bs. split_and!.
  - intros Hy. rewrite Account_Balance_pair. apply Balance_loop_no_quote.
    eapply Forall_impl; [by apply matches_Forall|]. cbn. tauto.
  - intros Hx. rewrite Account_Balance_pair. apply Balance_loop_no_asset.
    by apply matches_Forall.
  - rewrite Account_Balance_pair. apply Balance_loop_no_quote.
    apply Forall_forall. intros b _.
    destruct (decide (Balance.Asset b = x)); tauto.
Qed.

Lemma Account_Balance_last_witness :
  Account_Balance (Account.mk [btc (f64 1) (f64 0); btc (f64 2) (f64 0)])
    "BTC" "USDT"
  = (btc (f64 2) (f64 0), Balance.zero).
Proof.
  apply (proj1 (Account_Balance_last
                  (Account.mk [btc (f64 1) (f64 0); btc (f64 2) (f64 0)])
                  "BTC" "USDT")).
  reflexivity.
Defined.

(** Entries of other assets leave the loop state as it is. *)
Lemma Balance_loop_filter (x y : string) (bs : list Balance.t) :
  ∀ ab qb sa sq,
    sa && sq = false →
    Balance_loop bs x y (ab, qb, sa, sq)
    = Balance_loop
        (filter (λ b, Balance.Asset b = x ∨ Balance.Asset b = y) bs) x y
        (ab, qb, sa, sq).
Proof.
  induction bs as [|b bs IH]; intros ab qb sa sq Hst; [done|].
  destruct (decide (Balance.Asset b = x ∨ Balance.Asset b = y)) as [Hb|Hb].
  - rewrite filter_cons_True by done. cbn [Balance_loop].
    destruct (Balance_switch b x y (ab, qb, sa, sq)) as [[[ab' qb'] sa'] sq'].
    destruct (sa' && sq') eqn:E; [done|]. by apply IH.
  - rewrite filter_cons_False by done. cbn [Balance_loop].
    unfold Balance_switch.
    rewrite !bool_decide_eq_false_2 by tauto. rewrite Hst. by apply IH.
Qed.

(** X15. Balance depends only on the entries whose asset is one of the two
    symbols: removing all other entries from the account changes nothing,
    wherever they stand. *)
Theorem Account_Balance_relevant (a : Account.t) (x y : string) :
  Account_Balance a x y
  = Account_Balance
      (Account.mk
         (filter (λ b, Balance.Asset b = x ∨ Balance.Asset b = y)
            (Account.Balances a)))
      x y.
Proof.
  unfold Account_Balance. cbn. by rewrite <- Balance_loop_filter.
Qed.

(** ** Account.Equity *)

Lemma Equity_app (bs bs' : list Balance.t) :
  Equity (Account.mk (bs ++ bs'))
  = foldl (λ total balance,
             ((total + Balance.Free balance) + Balance.Lock balance)%f64)
      (Equity (Account.mk bs)) bs'.
Proof. unfold Equity. cbn. apply foldl_app. Qed.

(** X16. Equity is a running total over the entries in their order: the
    empty account has equity +0, an entry appended at the end adds its free
    and then its lock amount to the total of the entries before it, and asset
    names and leverage play no part, so accounts with the same free and lock
    amounts in the same order have the same equity. *)
Theorem Equity_running_total :
  Equity (Account.mk []) = F64.zero
  ∧ (∀ bs b,
       Equity (Account.mk (bs ++ [b]))
       = ((Equity (Account.mk bs) + Balance.Free b) + Balance.Lock b)%f64)
  ∧ (∀ a a',
       (λ b, (Balance.Free b, Balance.Lock b)) <$> Account.Balances a
       = (λ b, (Balance.Free b, Balance.Lock b)) <$> Account.Balances a' →
       Equity a = Equity a').
Proof.
  split; [done|]. split.
  - intros bs b. by rewrite Equity_app.
  - intros [bs] [bs']. unfold Equity. cbn. generalize F64.zero.
    revert bs'. induction bs as [|b bs IH]; intros [|b' bs'] t H;
      try done.
    cbn in H. injection H as Hf Hl H. cbn. rewrite Hf, Hl. by apply IH.
Qed.

Lemma Equity_running_total_witness :
  Equity (Account.mk [btc (f64 1) (f64 1 / f64 2)%f64; eth (f64 2) (f64 0)])
  = Equity (Account.mk [eth (f64 1) (f64 1 / f64 2)%f64;
                        btc (f64 2) (f64 0)]).
Proof.
  apply (proj2 (proj2 Equity_running_total)). reflexivity.
Defined.

(** ** Less is a strict order on (time, updatedAt, pair) *)

Lemma lex_lt_irrefl (s : string) : ¬ lex_lt s s.
Proof.
  induction s as [|a s IH]; inversion 1; subst; [lia | done].
Qed.

Lemma lex_lt_trans (s t u : string) : lex_lt s t → lex_lt t u → lex_lt s u.
Proof.
  intros Hst. revert u.
  induction Hst as [a t|a b s t Hab|a s t Hst IH]; intros u Htu;
    inversion Htu; subst; try (by constructor).
  - constructor 2. lia.
  - constructor 3. by apply IH.
Qed.

Lemma lex_lt_total (s t : string) : lex_lt s t ∨ s = t ∨ lex_lt t s.
Proof.
  revert t. induction s as [|a s IH]; intros [|b t].
  - by right; left.
  - left. constructor.
  - right; right. constructor.
  - destruct (N.lt_trichotomy (N_of_ascii a) (N_of_ascii b)) as [H|[H|H]].
    + left. by constructor 2.
    + assert (a = b) as ->.
      { rewrite <- (ascii_N_embedding a), <- (ascii_N_embedding b).
        by rewrite H. }
      destruct (IH t) as [?|[->|?]].
      * left. by constructor 3.
      * by right; left.
      * right; right. by constructor 3.
    + right; right. by constructor 2.
Qed.

Ltac solve_candle_lt :=
  solve [ left; lia
        | right; split; [lia|]; left; lia
        | right; split; [lia|]; right; split; [lia | done] ].

(** The result of [Less] on two candles. *)
Lemma Less_candle_lt (c j : Candle.t) :
  ∃ b, Less c (ItemCandle j) = Some b ∧ (b = true ↔ candle_lt c j).
Proof.
  unfold Less, candle_lt. cbn.
  destruct (Sub_sign (Candle.Time j) (Candle.Time c)) as [-> ->].
  destruct (Sub_sign (Candle.UpdatedAt j) (Candle.UpdatedAt c)) as [-> ->].
  repeat case_match; eexists; (split; [reflexivity|]);
    rewrite ?ltb_lex_lt; try (split; [done | lia]); try (split; [lia | done]).
  split.
  - intros Hlt. right. split; [lia|]. right. split; [lia | done].
  - intros [?|[_ [?|[_ ?]]]]; [lia | lia | done].
Qed.

Lemma Less_true (c j : Candle.t) :
  Less c (ItemCandle j) = Some true ↔ candle_lt c j.
Proof.
  destruct (Less_candle_lt c j) as (b & -> & Hb). rewrite <- Hb.
  split; [by intros [= ->] | by intros ->].
Qed.

Lemma Less_false (c j : Candle.t) :
  Less c (ItemCandle j) = Some false ↔ ¬ candle_lt c j.
Proof.
  destruct (Less_candle_lt c j) as (b & -> & Hb). rewrite <- Hb.
  destruct b; split; done.
Qed.

(** X17. On candles Less always returns, and it is a strict total order of
    the keys (time, updatedAt, pair): no candle is less than itself, Less is
    transitive, of two candles at most one is less than the other, and exactly
    those with equal keys are less in neither direction, whatever their prices
    are; on an item that is not a Candle the type assertion panics. *)
Theorem Less_strict_order :
  (∀ c, Less c (ItemCandle c) = Some false)
  ∧ (∀ a b c,
       Less a (ItemCandle b) = Some true → Less b (ItemCandle c) = Some true →
       Less a (ItemCandle c) = Some true)
  ∧ (∀ a b,
       Less a (ItemCandle b) = Some true → Less b (ItemCandle a) = Some false)
  ∧ (∀ a b,
       (Less a (ItemCandle b) = Some false ∧ Less b (ItemCandle a) = Some false)
       ↔ (Candle.Time a = Candle.Time b
          ∧ Candle.UpdatedAt a = Candle.UpdatedAt b
          ∧ Candle.Pair a = Candle.Pair b))
  ∧ (∀ c, Less c ItemOther = None).
Proof.
  split_and!.
  - intros c. apply Less_false. unfold candle_lt.
    pose proof (lex_lt_irrefl (Candle.Pair c)). intuition lia.
  - intros a b c. rewrite !Less_true. unfold candle_lt.
    pose proof (lex_lt_trans (Candle.Pair a) (Candle.Pair b) (Candle.Pair c)).
    intros [?|[? [?|[? ?]]]] [?|[? [?|[? ?]]]]; try (left; lia);
      try (right; split; [lia|]; left; lia).
    right. split; [lia|]. right. split; [lia|]. auto.
  - intros a b. rewrite Less_true, Less_false. unfold candle_lt.
    pose proof (lex_lt_trans (Candle.Pair a) (Candle.Pair b) (Candle.Pair a)).
    pose proof (lex_lt_irrefl (Candle.Pair a)).
    intros [?|[? [?|[? ?]]]] [?|[? [?|[? ?]]]]; try lia. auto.
  - intros a b. rewrite !Less_false. unfold candle_lt. split.
    + intros [Hab Hba].
      destruct (lex_lt_total (Candle.Pair a) (Candle.Pair b)) as [?|[?|?]];
        destruct (Z.lt_trichotomy (Candle.Time a) (Candle.Time b))
          as [?|[?|?]];
        destruct (Z.lt_trichotomy (Candle.UpdatedAt a) (Candle.UpdatedAt b))
          as [?|[?|?]]; try done;
        exfalso;
        first [ apply Hab; solve_candle_lt | apply Hba; solve_candle_lt ].
    + intros (Ht & Hu & Hp). rewrite Ht, Hu, Hp.
      pose proof (lex_lt_irrefl (Candle.Pair b)). intuition lia.
  - done.
Qed.

Lemma Less_strict_order_witness :
  let A := Candle.mk "a" 1 1 (f64 1) F64.zero F64.zero F64.zero F64.zero
             false None in
  let B := Candle.mk "b" 1 1 (f64 2) F64.zero F64.zero F64.zero F64.zero
             true None in
  let C := Candle.mk "a" 2 0 (f64 3) F64.zero F64.zero F64.zero F64.zero
             false None in
  Less A (ItemCandle C) = Some true ∧ Less B (ItemCandle A) = Some false.
Proof.
  intros A B C. split.
  - apply (proj1 (proj2 Less_strict_order) A B C); reflexivity.
  - apply (proj1 (proj2 (proj2 Less_strict_order)) A B). reflexivity.
Defined.

(** ** The recurrence forgets its history at the sentinel *)

Lemma CalculateHeikinAshi_Empty (ha : HeikinAshi.t) (c : Candle.t) :
  Empty (HeikinAshi.PreviousHACandle ha) = true →
  CalculateHeikinAshi ha c = CalculateHeikinAshi NewHeikinAshi c.
Proof. unfold CalculateHeikinAshi. by intros ->. Qed.

(** X18. A recurrence whose stored candle is Empty() answers like a fresh
    one: the call returns the same candle and leaves the same state as on
    NewHeikinAshi(); this is the case after every smoothed candle whose open
    and close are zero, so from there on the smoothed series is the one a new
    recurrence started at the next candle would produce. *)
Theorem CalculateHeikinAshi_restarts :
  (∀ ha c,
     Empty (HeikinAshi.PreviousHACandle ha) = true →
     CalculateHeikinAshi ha c = CalculateHeikinAshi NewHeikinAshi c)
  ∧ (∀ ha c0 cs,
       let k := (Candle_ToHeikinAshi c0 ha).1 in
       (Candle.Open k == F64.zero)%f64 = true →
       (Candle.Close k == F64.zero)%f64 = true →
       smooth ha (c0 :: cs) = k :: smooth NewHeikinAshi cs).
Proof.
  split; [apply CalculateHeikinAshi_Empty|].
  intros ha c0 cs k Ho Hc. rewrite smooth_cons. fold k. f_equal.
  destruct (Candle_ToHeikinAshi_state c0 ha)
    as (_ & _ & _ & _ & _ & _ & _ & _ & HE).
  fold k in HE. rewrite Ho, Hc in HE. cbn in HE.
  destruct cs as [|c cs]; [done|]. cbn [smooth].
  unfold Candle_ToHeikinAshi at 1 3.
  by rewrite (CalculateHeikinAshi_Empty _ c HE).
Qed.

Lemma CalculateHeikinAshi_restarts_witness :
  smooth NewHeikinAshi [raw 0 0 0 0; raw 10 20 25 5; raw 30 12 31 11]
  = (Candle_ToHeikinAshi (raw 0 0 0 0) NewHeikinAshi).1
    :: smooth NewHeikinAshi [raw 10 20 25 5; raw 30 12 31 11].
Proof.
  apply (proj2 CalculateHeikinAshi_restarts NewHeikinAshi (raw 0 0 0 0));
    reflexivity.
Defined.

(** ** ToHeikinAshi looks at no later candle *)

Lemma smooth_take (cs : list Candle.t) :
  ∀ ha n, smooth ha (take n cs) = take n (smooth ha cs).
Proof.
  induction cs as [|c cs IH]; intros ha [|n]; try done.
  cbn [take]. rewrite !smooth_cons. cbn [take]. by rewrite IH.
Qed.

(** ToHeikinAshi on the series whose columns are the fields of [cs]. *)
Lemma ToHeikinAshi_of_candles (cs : list Candle.t) (cp : list float64)
    (bm : list bool) (ish : bool) :
  view <$> cs = cs →
  let hs := smooth NewHeikinAshi cs in
  OHLC_ToHeikinAshi
    (OHLC.mk (Candle.Close <$> cs) (Candle.Open <$> cs) (Candle.High <$> cs)
       (Candle.Low <$> cs) (Candle.Volume <$> cs) cp bm (Candle.Time <$> cs)
       ish)
  = Some
      (OHLC.mk (Candle.Close <$> hs) (Candle.Open <$> hs)
         (Candle.High <$> hs) (Candle.Low <$> hs) (Candle.Volume <$> cs)
         ((λ h, ((Candle.Close h - Candle.Open h) / Candle.Open h)%f64)
            <$> hs)
         ((λ h, gtb (Candle.Close h) (Candle.Open h)) <$> hs)
         (Candle.Time <$> cs) true).
Proof.
  intros Hview hs. unfold OHLC_ToHeikinAshi, for_range.
  unfold OHLC.with_IsBullMarket, OHLC.with_ChangePercent.
  cbn [OHLC.Close OHLC.Open OHLC.High OHLC.Low OHLC.Volume OHLC.Time
       OHLC.ChangePercent OHLC.IsBullMarket OHLC.IsHeikinAshi].
  rewrite !length_fmap.
  destruct (ToHeikinAshi_loop cs 0 NewHeikinAshi [] [] [] [] [] [] [] []
              ish) as [ha' Hloop]; try done.
  cbn [app] in Hloop. rewrite Hloop. cbn. by rewrite Hview.
Qed.

(** X19. ToHeikinAshi looks at no later candle: on an aligned series, the
    conversion of the series cut after its first n candles is the conversion
    of the whole series cut after its first n candles, for every n; candles
    appended later never change the smoothed values before them. *)
Theorem ToHeikinAshi_prefix (df : OHLC.t) (L n : nat) :
  aligned df L →
  ∃ df', OHLC_ToHeikinAshi df = Some df'
         ∧ OHLC_ToHeikinAshi (OHLC_take n df) = Some (OHLC_take n df').
Proof.
  intros Hal.
  destruct (raw_candles_is_Some df L Hal) as [cs Hcs].
  destruct (raw_candles_columns df L cs Hal Hcs)
    as (Hlen & Hc & Ho & Hh & Hl & Hv & Ht & Hview).
  destruct df as [cl op hi lo vo cp bm tm ish].
  cbn in Hc, Ho, Hh, Hl, Hv, Ht. subst.
  eexists. split; [by apply ToHeikinAshi_of_candles|].
  unfold OHLC_take.
  cbn [OHLC.Close OHLC.Open OHLC.High OHLC.Low OHLC.Volume OHLC.Time
       OHLC.ChangePercent OHLC.IsBullMarket OHLC.IsHeikinAshi].
  rewrite <- !fmap_take.
  rewrite ToHeikinAshi_of_candles.
  - by rewrite smooth_take.
  - by rewrite fmap_take, Hview.
Qed.

Lemma ToHeikinAshi_prefix_witness :
  ∃ df', OHLC_ToHeikinAshi series2 = Some df'
         ∧ OHLC_ToHeikinAshi (OHLC_take 1 series2) = Some (OHLC_take 1 df').
Proof.
  apply (ToHeikinAshi_prefix series2 2 1). vm_compute. intuition discriminate.
Defined.

(** ** The smoothed close is OHLC4 *)

Lemma OHLC4_of_candles (cs : list Candle.t) (vo cp : list float64)
    (bm : list bool) (tm : list time.Time) (ish : bool) :
  OHLC4 (OHLC.mk (Candle.Close <$> cs) (Candle.Open <$> cs)
           (Candle.High <$> cs) (Candle.Low <$> cs) vo cp bm tm ish)
  = Some ((λ c, ((Candle.Open c + Candle.High c + Candle.Low c
                  + Candle.Close c) / f64 4)%f64) <$> cs).
Proof.
  unfold OHLC4, for_range.
  cbn [OHLC.Close OHLC.Open OHLC.High OHLC.Low].
  rewrite length_fmap.
  rewrite (for_range_collect _
             (λ j, let c := default Candle.zero (cs !! j) in
                   ((Candle.Open c + Candle.High c + Candle.Low c
                     + Candle.Close c) / f64 4)%f64)).
  - cbn. f_equal. apply list_eq. intros i.
    rewrite !list_lookup_fmap.
    destruct (cs !! i) as [c|] eqn:E.
    + rewrite lookup_seq_lt by (by eapply lookup_lt_Some). cbn.
      by rewrite E.
    + rewrite lookup_seq_ge; [done|]. by apply lookup_ge_None_1.
  - intros j r Hj. rewrite !index_of_nat, !list_lookup_fmap.
    destruct (lookup_lt_is_Some_2 cs j) as [c ->]; [lia|]. done.
Qed.

Lemma smooth_close (cs : list Candle.t) :
  ∀ ha, Candle.Close <$> smooth ha cs
        = (λ c, ((Candle.Open c + Candle.High c + Candle.Low c
                  + Candle.Close c) / f64 4)%f64) <$> cs.
Proof.
  induction cs as [|c cs IH]; intros ha; [done|].
  rewrite smooth_cons. cbn [fmap list_fmap]. rewrite IH. f_equal.
  destruct (Candle_ToHeikinAshi_state c ha) as (_ & -> & _).
  apply CalculateHeikinAshi_close.
Qed.

(** X20. On an aligned series the close sequence that ToHeikinAshi leaves
    is exactly what OHLC4() returned before the call. *)
Theorem ToHeikinAshi_close_is_OHLC4 (df : OHLC.t) (L : nat) :
  aligned df L →
  ∃ df', OHLC_ToHeikinAshi df = Some df'
         ∧ OHLC4 df = Some (OHLC.Close df').
Proof.
  intros Hal.
  destruct (raw_candles_is_Some df L Hal) as [cs Hcs].
  destruct (raw_candles_columns df L cs Hal Hcs)
    as (Hlen & Hc & Ho & Hh & Hl & Hv & Ht & Hview).
  destruct df as [cl op hi lo vo cp bm tm ish].
  cbn in Hc, Ho, Hh, Hl, Hv, Ht. subst.
  eexists. split; [by apply ToHeikinAshi_of_candles|].
  cbn [OHLC.Close]. rewrite smooth_close. apply OHLC4_of_candles.
Qed.

Lemma ToHeikinAshi_close_is_OHLC4_witness :
  ∃ df', OHLC_ToHeikinAshi series2 = Some df'
         ∧ OHLC4 series2 = Some (OHLC.Close df').
Proof.
  apply (ToHeikinAshi_close_is_OHLC4 series2 2). vm_compute.
  intuition discriminate.
Defined.

(** ** Sample keeps the most recent candles *)

Lemma index_drop {A} (s : list A) (d : nat) (i : Z) :
  0 ≤ i → index (drop d s) i = index s (i + Z.of_nat d).
Proof.
  intros Hi. unfold index, len. rewrite length_drop, lookup_drop.
  replace (Z.to_nat (i + Z.of_nat d)) with (d + Z.to_nat i)%nat by lia.
  destruct (s !! (d + Z.to_nat i)%nat) eqn:E.
  - apply lookup_lt_Some in E.
    destruct (Z.leb_spec 0 i), (Z.ltb_spec i (Z.of_nat (length s - d))),
      (Z.leb_spec 0 (i + Z.of_nat d)),
      (Z.ltb_spec (i + Z.of_nat d) (Z.of_nat (length s))); cbn;
      try done; lia.
  - by repeat case_match.
Qed.

Lemma OHLC_Candle_windowed (df : Dataframe.t) (d : nat) (i : Z) :
  0 ≤ i →
  OHLC_Candle (Dataframe.ohlc (windowed d df)) i
  = OHLC_Candle (Dataframe.ohlc df) (i + Z.of_nat d).
Proof.
  intros Hi. unfold OHLC_Candle, windowed. cbn. by rewrite !index_drop.
Qed.

Lemma Last_aligned (df : OHLC.t) (L : nat) (k : Z) :
  length (OHLC.Close df) = L → Z.of_nat L ≤ maxInt → 0 ≤ k < Z.of_nat L →
  Last df [k] = OHLC_Candle df (Z.of_nat L - 1 - k).
Proof.
  intros Hc HL Hk.
  assert (Hmin : minInt = - 9223372036854775808) by reflexivity.
  assert (Hmax : maxInt = 9223372036854775807) by reflexivity.
  unfold Last, len. rewrite Hc.
  destruct (Z.of_nat L =? 0) eqn:E; [lia|].
  rewrite (wrap_id (Z.of_nat L - 1)) by lia. by rewrite wrap_id by lia.
Qed.

(** X21. On an aligned dataframe and for n >= 0, the sample holds the most
    recent candles: Candle(i) of the sample is Candle(i + len - n) of the
    original (Candle(i) itself when n >= len), and Last(k) of the sample is
    Last(k) of the original for every offset k below both n and len. *)
Theorem Sample_Last (df : Dataframe.t) (L : nat) (n : Z) :
  aligned (Dataframe.ohlc df) L → Z.of_nat L ≤ maxInt → 0 ≤ n ≤ maxInt →
  ∃ s, Sample df n = Some s
       ∧ (∀ i, 0 ≤ i →
               OHLC_Candle (Dataframe.ohlc s) i
               = OHLC_Candle (Dataframe.ohlc df)
                   (i + Z.max (Z.of_nat L - n) 0))
       ∧ (∀ k, 0 ≤ k < n → k < Z.of_nat L →
               Last (Dataframe.ohlc s) [k] = Last (Dataframe.ohlc df) [k]).
Proof.
  intros Hal HL Hn. eexists. split; [by eapply Sample_aligned|].
  assert (Hc : length (OHLC.Close (Dataframe.ohlc df)) = L) by apply Hal.
  destruct (decide (Z.of_nat L ≤ n)) as [Hle|Hgt].
  - split; [|done]. intros i Hi. f_equal. lia.
  - assert (Hw : ∀ i, 0 ≤ i →
              OHLC_Candle (Dataframe.ohlc (windowed (L - Z.to_nat n) df)) i
              = OHLC_Candle (Dataframe.ohlc df)
                  (i + Z.max (Z.of_nat L - n) 0)).
    { intros i Hi. rewrite OHLC_Candle_windowed by done. f_equal. lia. }
    split; [done|]. intros k Hk HkL.
    rewrite (Last_aligned _ (L - (L - Z.to_nat n)) k); [| |lia..].
    + rewrite (Last_aligned _ L k) by (done || lia).
      rewrite Hw by lia. f_equal. lia.
    + apply (windowed_aligned (L - Z.to_nat n) L df Hal).
Qed.

Lemma Sample_Last_witness :
  ∃ s, Sample frame2 1 = Some s
       ∧ Last (Dataframe.ohlc s) [0] = Last series2 [0].
Proof.
  destruct (Sample_Last frame2 2 1) as (s & Hs & _ & HL);
    [vm_compute; intuition discriminate ..|].
  exists s. split; [done|]. apply HL; lia.
Defined.

(** ** The price averages of a sample *)

Lemma HL2_of_candles (cs : list Candle.t) (op vo cp : list float64)
    (bm : list bool) (tm : list time.Time) (ish : bool) :
  HL2 (OHLC.mk (Candle.Close <$> cs) op (Candle.High <$> cs)
         (Candle.Low <$> cs) vo cp bm tm ish)
  = Some ((λ c, ((Candle.High c + Candle.Low c) / f64 2)%f64) <$> cs).
Proof.
  unfold HL2, for_range.
  cbn [OHLC.Close OHLC.Open OHLC.High OHLC.Low].
  rewrite length_fmap.
  rewrite (for_range_collect _
             (λ j, let c := default Candle.zero (cs !! j) in
                   ((Candle.High c + Candle.Low c) / f64 2)%f64)).
  - cbn. f_equal. apply list_eq. intros i.
    rewrite !list_lookup_fmap.
    destruct (cs !! i) as [c|] eqn:E.
    + rewrite lookup_seq_lt by (by eapply lookup_lt_Some). cbn.
      by rewrite E.
    + rewrite lookup_seq_ge; [done|]. by apply lookup_ge_None_1.
  - intros j r Hj. rewrite !index_of_nat, !list_lookup_fmap.
    destruct (lookup_lt_is_Some_2 cs j) as [c ->]; [lia|]. done.
Qed.

Lemma HLC3_of_candles (cs : list Candle.t) (op vo cp : list float64)
    (bm : list bool) (tm : list time.Time) (ish : bool) :
  HLC3 (OHLC.mk (Candle.Close <$> cs) op (Candle.High <$> cs)
          (Candle.Low <$> cs) vo cp bm tm ish)
  = Some ((λ c, ((Candle.High c + Candle.Low c + Candle.Close c)
                 / f64 3)%f64) <$> cs).
Proof.
  unfold HLC3, for_range.
  cbn [OHLC.Close OHLC.Open OHLC.High OHLC.Low].
  rewrite length_fmap.
  rewrite (for_range_collect _
             (λ j, let c := default Candle.zero (cs !! j) in
                   ((Candle.High c + Candle.Low c + Candle.Close c)
                    / f64 3)%f64)).
  - cbn. f_equal. apply list_eq. intros i.
    rewrite !list_lookup_fmap.
    destruct (cs !! i) as [c|] eqn:E.
    + rewrite lookup_seq_lt by (by eapply lookup_lt_Some). cbn.
      by rewrite E.
    + rewrite lookup_seq_ge; [done|]. by apply lookup_ge_None_1.
  - intros j r Hj. rewrite !index_of_nat, !list_lookup_fmap.
    destruct (lookup_lt_is_Some_2 cs j) as [c ->]; [lia|]. done.
Qed.

(** X22. The price averages commute with sampling: on an aligned dataframe
    and for n >= 0, HL2(), HLC3() and OHLC4() of Sample(n) are the last n
    entries of HL2(), HLC3() and OHLC4() of the whole series (all of them
    when n >= len). *)
Theorem price_averages_Sample (df : Dataframe.t) (L : nat) (n : Z) :
  aligned (Dataframe.ohlc df) L → Z.of_nat L ≤ maxInt → 0 ≤ n ≤ maxInt →
  ∃ s, Sample df n = Some s
       ∧ HL2 (Dataframe.ohlc s)
         = drop (L - Z.to_nat n) <$> HL2 (Dataframe.ohlc df)
       ∧ HLC3 (Dataframe.ohlc s)
         = drop (L - Z.to_nat n) <$> HLC3 (Dataframe.ohlc df)
       ∧ OHLC4 (Dataframe.ohlc s)
         = drop (L - Z.to_nat n) <$> OHLC4 (Dataframe.ohlc df).
Proof.
  intros Hal HL Hn. eexists. split; [by eapply Sample_aligned|].
  destruct (raw_candles_is_Some _ L Hal) as [cs Hcs].
  destruct (raw_candles_columns _ L cs Hal Hcs)
    as (Hlen & Hc & Ho & Hh & Hl & Hv & Ht & Hview).
  destruct df as [pair [cl op hi lo vo cp bm tm ish] upd md].
  cbn in Hc, Ho, Hh, Hl, Hv, Ht. subst.
  destruct (decide (Z.of_nat (length cs) ≤ n)) as [Hle|Hgt].
  - replace (length cs - Z.to_nat n)%nat with 0%nat by lia.
    cbn [Dataframe.ohlc].
    rewrite !HL2_of_candles, !HLC3_of_candles, !OHLC4_of_candles.
    cbn [fmap option_fmap option_map]. by rewrite !drop_0.
  - unfold windowed.
    cbn [Dataframe.ohlc Dataframe.with_ohlc OHLC.Close OHLC.Open OHLC.High
         OHLC.Low OHLC.Volume OHLC.Time OHLC.ChangePercent OHLC.IsBullMarket
         OHLC.IsHeikinAshi].
    rewrite <- !fmap_drop.
    rewrite !HL2_of_candles, !HLC3_of_candles, !OHLC4_of_candles.
    cbn [fmap option_fmap option_map]. by rewrite !fmap_drop.
Qed.

Lemma price_averages_Sample_witness :
  ∃ s, Sample frame2 1 = Some s
       ∧ HL2 (Dataframe.ohlc s) = drop 1 <$> HL2 series2.
Proof.
  destruct (price_averages_Sample frame2 2 1) as (s & Hs & H2 & _);
    [vm_compute; intuition discriminate ..|].
  by exists s.
Defined.
